(** * Event classification of the autoscale-enforcer watches, the
      controller's name-list flag and the swap-resize script

    A shallow embedding of
    - [pkg/plugin/watch.go]: the handler closures that [watchPodEvents] and
      [watchVMEvents] register with the generic watch engine;
    - the function that the controller's [main] gives to [flag.Func] for
      [-skip-update-validation-for], with the functions of Go's [strings]
      package it calls;
    - [checkIfRunningInK3sCluster] and the HTTP handler of
      [debugServerFunc] of the same file;
    - the shell script that resizes the swap of a VM.

    Handlers are Go closures that only produce effects (log lines, calls to
    the submission callbacks, calls to the extraction helper).  They are
    embedded in a writer monad [Act] whose output is the list of effects in
    program order.  Handlers receive pointers; the engine passes objects of
    its store, and the embedding takes them as values.

    Helpers of the repository that the handlers call and that are not part
    of the files above ([util.PodCompleted], [api.ExtractVmInfo],
    [VmInfo.EqualScalingBounds], [util.GetNamespacedName], the constant
    [LabelVM]) are parameters, gathered in the classes [PodDeps] and
    [VmDeps]; every statement holds for all of them.  [Examples] gives
    instances to run the definitions on. *)

From Stdlib Require Import ZArith Ascii.
From stdpp Require Import base decidable option list strings gmap pretty.

Local Open Scope string_scope.

(** ** The effect monad *)

(** [Act E A]: a computation returning [A] that performed the effects in the
    list, oldest first. *)
Definition Act (E A : Type) : Type := (A * list E)%type.

Definition ret {E A} (a : A) : Act E A := (a, []).

Definition bind {E A B} (m : Act E A) (k : A -> Act E B) : Act E B :=
  let '(a, t1) := m in
  let '(b, t2) := k a in
  (b, (t1 ++ t2)%list).

Definition emit {E} (e : E) : Act E unit := (tt, [e]).

(** Go's [if c { body }] without an [else]. *)
Definition when {E} (c : bool) (body : Act E unit) : Act E unit :=
  if c then body else ret tt.

Definition trace {E A} (m : Act E A) : list E := snd m.

Declare Scope act_scope.
Delimit Scope act_scope with act.
Notation "x <- m ;; k" := (bind m (fun x => k))
  (at level 100, m at next level, right associativity) : act_scope.
Notation "m ;; k" := (bind m (fun _ => k))
  (at level 100, right associativity) : act_scope.

(** ** Kubernetes and repository types read by the handlers *)

Module util.
(** [util.NamespacedName] *)
Record NamespacedName : Type := { Namespace : string; Name : string }.
End util.

Module metav1.
(** The part of [metav1.ObjectMeta] the handlers and helpers read. *)
Record ObjectMeta : Type :=
  { Name : string; Namespace : string; Labels : gmap string string }.
End metav1.

Module corev1.
(** [corev1.PodPhase] is a Go string type. *)
Record PodStatus : Type := { Phase : string }.
Record Pod : Type := { ObjectMeta : metav1.ObjectMeta; Status : PodStatus }.
End corev1.

(** klog severities. [Fatal] ends the process after logging. *)
Inductive Severity : Type := Info | Warning | Error | Fatal.

(** Go's [error], carried as its message. *)
Definition GoError : Type := string.

Inductive LogArg : Type :=
| ArgName (n : util.NamespacedName)
| ArgErr (e : GoError).

(** ** watchPodEvents *)

(** Declared elsewhere in the repository: [util.PodCompleted] and the
    constant [LabelVM] of the plugin package. *)
Class PodDeps : Type :=
  { PodCompleted : corev1.Pod -> bool;
    LabelVM : string }.

Module PodWatch.

Inductive Effect : Type :=
| Klog (sev : Severity) (format : string) (args : list LogArg)
| SubmitVMDeletion (name : util.NamespacedName)
| SubmitPodDeletion (name : util.NamespacedName).

Definition klog_Infof (format : string) (args : list LogArg) : Act Effect unit :=
  emit (Klog Info format args).
Definition submitVMDeletion (name : util.NamespacedName) : Act Effect unit :=
  emit (SubmitVMDeletion name).
Definition submitPodDeletion (name : util.NamespacedName) : Act Effect unit :=
  emit (SubmitPodDeletion name).

(** Go's [_, ok := m[k]]; a nil map has no keys. *)
Definition has_key (m : gmap string string) (k : string) : bool :=
  bool_decide (is_Some (m !! k)).

Section Handlers.
Context `{PodDeps}.
Local Open Scope act_scope.

Definition UpdateFunc (oldPod newPod : corev1.Pod) : Act Effect unit :=
  when (negb (PodCompleted oldPod) && PodCompleted newPod) (
    let name := {| util.Name := metav1.Name (corev1.ObjectMeta newPod);
                   util.Namespace := metav1.Namespace (corev1.ObjectMeta newPod) |} in
    klog_Infof "[autoscale-enforcer] watch: Received update event for completion of pod %v"
               [ArgName name] ;;
    if has_key (metav1.Labels (corev1.ObjectMeta newPod)) LabelVM
    then submitVMDeletion name
    else submitPodDeletion name).

Definition DeleteFunc (pod : corev1.Pod) (mayBeStale : bool) : Act Effect unit :=
  let name := {| util.Name := metav1.Name (corev1.ObjectMeta pod);
                 util.Namespace := metav1.Namespace (corev1.ObjectMeta pod) |} in
  if PodCompleted pod then
    klog_Infof "[autoscale-enforcer] watch: Received delete event for completed pod %v"
               [ArgName name]
  else
    klog_Infof "[autoscale-enforcer] watch: Received delete event for pod %v"
               [ArgName name] ;;
    if has_key (metav1.Labels (corev1.ObjectMeta pod)) LabelVM
    then submitVMDeletion name
    else submitPodDeletion name.

(** The notifications the engine delivers to this handler set
    ([AddFunc] is nil). *)
Inductive Event : Type :=
| Updated (oldPod newPod : corev1.Pod)
| Deleted (pod : corev1.Pod) (mayBeStale : bool).

Definition handle (ev : Event) : Act Effect unit :=
  match ev with
  | Updated o n => UpdateFunc o n
  | Deleted p stale => DeleteFunc p stale
  end.

(** Modelled from the spec: the watch engine ([pkg/util/watch]) is not
    among the files embedded here; it invokes the callbacks of one
    resource kind strictly serially, in the delivery order of the
    stream. *)
Fixpoint deliver (evs : list Event) : Act Effect unit :=
  match evs with
  | [] => ret tt
  | ev :: rest => handle ev ;; deliver rest
  end.
End Handlers.

Definition is_work_item (e : Effect) : bool :=
  match e with
  | Klog _ _ _ => false
  | SubmitVMDeletion _ | SubmitPodDeletion _ => true
  end.

(** The submissions made, in order. *)
Definition work_items (t : list Effect) : list Effect :=
  List.filter is_work_item t.

(** The key of a pod's work items. *)
Definition name_of (pod : corev1.Pod) : util.NamespacedName :=
  {| util.Name := metav1.Name (corev1.ObjectMeta pod);
     util.Namespace := metav1.Namespace (corev1.ObjectMeta pod) |}.

(** The pod carries the VM label. *)
Definition has_vm_label `{PodDeps} (pod : corev1.Pod) : Prop :=
  is_Some (metav1.Labels (corev1.ObjectMeta pod) !! LabelVM).

(** The removal work item for a pod: routed by the VM label. *)
Definition removal_item `{PodDeps} (pod : corev1.Pod) : Effect :=
  if has_key (metav1.Labels (corev1.ObjectMeta pod)) LabelVM
  then SubmitVMDeletion (name_of pod)
  else SubmitPodDeletion (name_of pod).

End PodWatch.

(** ** watchVMEvents *)

Module vmapi.
(** The part of [vmapi.VirtualMachine] the handler reads itself: the
    object metadata and [.status.podName].  The spec of the VM is read
    only by [api.ExtractVmInfo]; its type is left open. *)
Record VirtualMachineStatus : Type := { PodName : string }.
Record VirtualMachine (Spec : Type) : Type :=
  { ObjectMeta : metav1.ObjectMeta;
    Spec_ : Spec;
    Status : VirtualMachineStatus }.
Arguments ObjectMeta {Spec} _.
Arguments Spec_ {Spec} _.
Arguments Status {Spec} _.
End vmapi.

(** Declared elsewhere in the repository: the [api] package ([VmInfo]
    with the two fields the handler reads, [EqualScalingBounds],
    [ExtractVmInfo], which returns either the info or an error) and
    [util.GetNamespacedName]. *)
Class VmDeps : Type :=
  { VirtualMachineSpec : Type;
    VmInfo : Type;
    VmInfo_Namespace : VmInfo -> string;
    VmInfo_ScalingEnabled : VmInfo -> bool;
    EqualScalingBounds : VmInfo -> VmInfo -> bool;
    ExtractVmInfo : vmapi.VirtualMachine VirtualMachineSpec -> VmInfo + GoError;
    GetNamespacedName : metav1.ObjectMeta -> util.NamespacedName }.

Module VMWatch.
Section Handlers.
Context `{VmDeps}.
Local Open Scope act_scope.

Definition VirtualMachine : Type := vmapi.VirtualMachine VirtualMachineSpec.

Inductive Effect : Type :=
| Klog (sev : Severity) (format : string) (args : list LogArg)
| CallExtractVmInfo (vm : VirtualMachine)
| SubmitVMDisabledScaling (name : util.NamespacedName)
| SubmitVMBoundsChanged (info : VmInfo) (podName : string).

Definition klog_Infof (format : string) (args : list LogArg) : Act Effect unit :=
  emit (Klog Info format args).
Definition klog_Errorf (format : string) (args : list LogArg) : Act Effect unit :=
  emit (Klog Error format args).
Definition submitVMDisabledScaling (name : util.NamespacedName) : Act Effect unit :=
  emit (SubmitVMDisabledScaling name).
Definition submitVMBoundsChanged (info : VmInfo) (podName : string) : Act Effect unit :=
  emit (SubmitVMBoundsChanged info podName).
(** A call of [api.ExtractVmInfo]: the call is recorded, its result is
    the helper's. *)
Definition call_ExtractVmInfo (vm : VirtualMachine) : Act Effect (VmInfo + GoError) :=
  emit (CallExtractVmInfo vm) ;; ret (ExtractVmInfo vm).

Definition PodName (vm : VirtualMachine) : string :=
  vmapi.PodName (vmapi.Status vm).

Definition UpdateFunc (oldVM newVM : VirtualMachine) : Act Effect unit :=
  r <- call_ExtractVmInfo oldVM ;;
  match r with
  | inr err =>
      klog_Errorf "[autoscale-enforcer] Error extracting VM info for %v: %s"
                  [ArgName (GetNamespacedName (vmapi.ObjectMeta oldVM)); ArgErr err]
  | inl oldInfo =>
      r <- call_ExtractVmInfo newVM ;;
      match r with
      | inr err =>
          klog_Errorf "[autoscale-enforcer] Error extracting VM info for %v: %s"
                      [ArgName (GetNamespacedName (vmapi.ObjectMeta newVM)); ArgErr err]
      | inl newInfo =>
          if bool_decide (PodName newVM = "") then
            klog_Infof
              "[autoscale-enforcer] Skipping update for VM %v because .status.podName is empty"
              [ArgName (GetNamespacedName (vmapi.ObjectMeta newVM))]
          else
            when (VmInfo_ScalingEnabled oldInfo && negb (VmInfo_ScalingEnabled newInfo)) (
              let name := {| util.Namespace := VmInfo_Namespace newInfo;
                             util.Name := PodName newVM |} in
              klog_Infof
                "[autoscale-enforcer] watch: Received update to disable autoscaling for pod %v"
                [ArgName name] ;;
              submitVMDisabledScaling name) ;;
            if bool_decide (PodName oldVM <> PodName newVM) then ret tt
            else if EqualScalingBounds oldInfo newInfo then ret tt
            else submitVMBoundsChanged newInfo (PodName newVM)
      end
  end.

(** Projections of a trace. *)
Definition is_disable (e : Effect) : bool :=
  match e with SubmitVMDisabledScaling _ => true | _ => false end.
Definition is_bounds (e : Effect) : bool :=
  match e with SubmitVMBoundsChanged _ _ => true | _ => false end.
Definition is_fatal (e : Effect) : bool :=
  match e with Klog Fatal _ _ => true | _ => false end.

Definition disable_items (t : list Effect) : list Effect := List.filter is_disable t.
Definition bounds_items (t : list Effect) : list Effect := List.filter is_bounds t.
Definition work_items (t : list Effect) : list Effect :=
  List.filter (fun e => is_disable e || is_bounds e) t.

(** The arguments of the [api.ExtractVmInfo] calls, in order. *)
Definition extracted (t : list Effect) : list VirtualMachine :=
  omap (fun e => match e with CallExtractVmInfo vm => Some vm | _ => None end) t.
End Handlers.
End VMWatch.

(** ** Go's [strings] package, as far as the flag parser calls it *)

(** The UTF-8 helpers behind the empty-separator cases of [strings.Count]
    and [strings.Split]; not modelled, the parser never reaches them. *)
Class GoUtf8 : Type :=
  { explode : string -> Z -> list string;
    RuneCountInString : string -> Z }.

Module strings.
Definition len (s : string) : Z := Z.of_nat (String.length s).

(** [s[:n]] and [s[n:]] for [0 <= n <= len(s)] (Go panics outside that
    range; the callers below stay inside it). *)
Fixpoint take (n : nat) (s : string) : string :=
  match n, s with
  | S n', String c s' => String c (take n' s')
  | _, _ => ""
  end.
Fixpoint drop (n : nat) (s : string) : string :=
  match n, s with
  | S n', String _ s' => drop n' s'
  | _, _ => s
  end.
Definition slice_to (s : string) (n : Z) : string := take (Z.to_nat n) s.
Definition slice_from (s : string) (n : Z) : string := drop (Z.to_nat n) s.

(** [strings.Index]: index of the first instance of [substr] in [s],
    or [-1]. *)
Fixpoint Index (s substr : string) : Z :=
  if String.prefix substr s then 0
  else match s with
       | "" => -1
       | String _ s' =>
           let i := Index s' substr in
           if (i <? 0)%Z then (-1)%Z else (i + 1)%Z
       end.

(** The loop of [strings.Count]; every round consumes at least one byte
    of [s] when [substr] is not empty, so [S (length s)] rounds of fuel
    are never used up (see [Count_loop_fuel]). *)
Fixpoint Count_loop (fuel : nat) (s substr : string) (n : Z) : Z :=
  match fuel with
  | O => n
  | S fuel' =>
      let i := Index s substr in
      if (i =? -1)%Z then n
      else Count_loop fuel' (slice_from s (i + len substr)) substr (n + 1)
  end.

Section WithUtf8.
Context `{GoUtf8}.

(** [strings.Count] (its single-byte fast path computes the same
    number as the general loop). *)
Definition Count (s substr : string) : Z :=
  if (len substr =? 0)%Z then (RuneCountInString s + 1)%Z
  else Count_loop (S (String.length s)) s substr 0.

(** The loop of [genSplit]: [k] is [n - i], the pieces still allowed
    before the remainder; the value is [a[:i+1]]. *)
Fixpoint genSplit_loop (k : nat) (s sep : string) (sepSave : Z) : list string :=
  match k with
  | O => [s]
  | S k' =>
      let m := Index s sep in
      if (m <? 0)%Z then [s]
      else slice_to s (m + sepSave)
             :: genSplit_loop k' (slice_from s (m + len sep)) sep sepSave
  end.

Definition genSplit (s sep : string) (sepSave n : Z) : list string :=
  if (n =? 0)%Z then []
  else if bool_decide (sep = "") then explode s n
  else
    let n := if (n <? 0)%Z then (Count s sep + 1)%Z else n in
    let n := if (n >? len s + 1)%Z then (len s + 1)%Z else n in
    genSplit_loop (Z.to_nat (n - 1)) s sep sepSave.

Definition SplitN (s sep : string) (n : Z) : list string := genSplit s sep 0 n.
Definition Split (s sep : string) : list string := genSplit s sep 0 (-1).
End WithUtf8.
End strings.

(** ** The [-skip-update-validation-for] flag of the controller's [main] *)

Module types.
(** [types.NamespacedName] of apimachinery. *)
Record NamespacedName : Type := { Namespace : string; Name : string }.

#[global] Instance NamespacedName_eq_dec : EqDecision NamespacedName.
Proof. solve_decision. Defined.

#[global] Instance NamespacedName_countable : Countable NamespacedName.
Proof.
  refine (inj_countable' (fun n => (Namespace n, Name n))
                         (fun p => {| Namespace := p.1; Name := p.2 |}) _).
  by intros [].
Defined.
End types.

Module SkipUpdateValidationFlag.
(** How a call of the flag function ends. *)
Inductive Outcome : Type :=
| ReturnNil
| ReturnErr (e : GoError)
| Panic.

(** How the [for ... range] loop ends: it runs to the end with the set
    built so far, or leaves the function. *)
Inductive LoopEnd : Type :=
| Finished (objSet : gset types.NamespacedName)
| Exits (o : Outcome).

Section WithUtf8.
Context `{GoUtf8}.

(** Lines 153-159: the name an entry stands for; [None] is the
    index-out-of-range panic of [splitBySlash[i]]. *)
Definition entry_name (name : string) : option types.NamespacedName :=
  let splitBySlash := strings.SplitN name "/" 1 in
  if (Z.of_nat (length splitBySlash) =? 1)%Z then
    match splitBySlash !! 0%nat with
    | Some x => Some {| types.Namespace := "default"; types.Name := x |}
    | None => None
    end
  else
    match splitBySlash !! 0%nat, splitBySlash !! 1%nat with
    | Some x, Some y => Some {| types.Namespace := x; types.Name := y |}
    | _, _ => None
    end.

Fixpoint range_names (names : list string) (objSet : gset types.NamespacedName)
  : LoopEnd :=
  match names with
  | [] => Finished objSet
  | name :: rest =>
      if bool_decide (name = "") then Exits (ReturnErr "name must not be empty")
      else match entry_name name with
           | None => Exits Panic
           | Some namespacedName => range_names rest ({[ namespacedName ]} ∪ objSet)
           end
  end.

(** The name the parser gives an entry, and the test for an empty
    entry, as the statements below use them. *)
Definition default_name (e : string) : types.NamespacedName :=
  {| types.Namespace := "default"; types.Name := e |}.
Definition has_empty (names : list string) : bool :=
  existsb (fun e => bool_decide (e = "")) names.

(** The function given to [flag.Func]; the second component is the
    variable [skipUpdateValidationFor] ([None] is the nil map). *)
Definition flag_func (value : string)
    (skipUpdateValidationFor : option (gset types.NamespacedName))
  : Outcome * option (gset types.NamespacedName) :=
  let objSet : gset types.NamespacedName := ∅ in
  let after_loop :=
    if bool_decide (value <> "") then range_names (strings.Split value ",") objSet
    else Finished objSet in
  match after_loop with
  | Exits o => (o, skipUpdateValidationFor)
  | Finished objSet => (ReturnNil, Some objSet)
  end.
End WithUtf8.
End SkipUpdateValidationFlag.

(** ** The swap-resize script

    A [/neonvm/bin/sh] script run with [set -euxo pipefail].  Modelled:
    [-e] (a failing simple command ends the script with its status, except
    on the left of [||]), [-u] (an unset positional parameter is an error),
    command substitution, the variables of the shell with the [PATH]
    the commands are looked up with, and the arithmetic expansion, which
    can assign variables.  [-x] only traces to stderr and there are no
    pipelines. *)

Module ResizeSwap.
(** A program started by the script: the [PATH] exported at that moment,
    the command word and its arguments. *)
Record Invocation : Type :=
  { env_PATH : string; prog : string; args : list string }.

(** The machine the script runs on and the part of the interpreter that
    is not the script's.  Running a program gives an exit status and its
    standard output and changes the machine.  [arith_eval c vars] is the
    shell's arithmetic evaluating the contents [c] of a variable that
    stands as an operand, with the shell variables [vars]: the number
    read ([None]: an arithmetic error) and the shell variables
    afterwards.  The contents are evaluated as an expression, and an
    expression can assign variables of the shell: a plain numeral
    leaves them as they are, contents such as [swapdisk=7] do not.  (The
    interpreter is the busybox shell the script names; its arithmetic
    starts no programs.) *)
Class Machine : Type :=
  { World : Type;
    exec : Invocation -> World -> Z * string * World;
    arith_eval : string -> gmap string string -> option Z * gmap string string }.

Inductive Result (A : Type) : Type :=
| Val (a : A)
| Exit (status : Z)
| ShellError.
Arguments Val {A} a.
Arguments Exit {A} status.
Arguments ShellError {A}.

(** Command substitution drops the trailing newlines of the output. *)
Fixpoint strip_trailing_newlines (s : string) : string :=
  match s with
  | "" => ""
  | String c s' =>
      let r := strip_trailing_newlines s' in
      if bool_decide (c = "010"%char) && bool_decide (r = "") then ""
      else String c r
  end.

Section Script.
Context `{Machine}.

(** The state of a run: the machine, the variables of the shell ([PATH]
    among them) and the programs started so far. *)
Record St : Type :=
  { world : World; vars : gmap string string; ran : list Invocation }.

Definition Sh (A : Type) : Type := St -> Result A * St.

Definition sh_ret {A} (a : A) : Sh A := fun st => (Val a, st).
Definition sh_bind {A B} (m : Sh A) (k : A -> Sh B) : Sh B :=
  fun st =>
    match m st with
    | (Val a, st') => k a st'
    | (Exit n, st') => (Exit n, st')
    | (ShellError, st') => (ShellError, st')
    end.
Definition exit {A} (n : Z) : Sh A := fun st => (Exit n, st).

Declare Scope sh_scope.
Delimit Scope sh_scope with sh.
Notation "x <- m ;; k" := (sh_bind m (fun x => k))
  (at level 100, m at next level, right associativity) : sh_scope.
Notation "m ;; k" := (sh_bind m (fun _ => k))
  (at level 100, right associativity) : sh_scope.
Local Open Scope sh_scope.

(** ["$i"] under [set -u]. *)
Definition positional (argv : list string) (i : nat) : Sh string :=
  fun st =>
    match argv !! (i - 1)%nat with
    | Some v => (Val v, st)
    | None => (ShellError, st)
    end.

(** [name=v] *)
Definition assign (name v : string) : Sh unit :=
  fun st => (Val tt, {| world := world st; vars := <[name := v]> (vars st);
                        ran := ran st |}).

(** ["$name"] under [set -u]. *)
Definition dollar (name : string) : Sh string :=
  fun st =>
    match vars st !! name with
    | Some v => (Val v, st)
    | None => (ShellError, st)
    end.

(** The [PATH] a program is looked up and started with (the script sets
    it before it starts any). *)
Definition current_PATH (st : St) : string := default "" (vars st !! "PATH").

(** Start a program and wait for it: status and output. *)
Definition run (p : string) (a : list string) : Sh (Z * string) :=
  fun st =>
    let inv := {| env_PATH := current_PATH st; prog := p; args := a |} in
    let '(status, out, w) := exec inv (world st) in
    (Val (status, out),
     {| world := w; vars := vars st; ran := (ran st ++ [inv])%list |}).

(** [-e]: a non-zero status ends the script with that status. *)
Definition errexit {A} (status : Z) (a : A) : Sh A :=
  if (status =? 0)%Z then sh_ret a else exit status.

(** A simple command as a statement of its own. *)
Definition simple (p : string) (a : list string) : Sh unit :=
  r <- run p a ;; errexit r.1 tt.

(** [name="$(p a...)"]: the variable gets the output, and the status of
    the assignment is the status of the substituted command. *)
Definition assign_cmdsubst (name p : string) (a : list string) : Sh unit :=
  r <- run p a ;;
  assign name (strip_trailing_newlines r.2) ;;
  errexit r.1 tt.

(** [p a... || true] *)
Definition or_true (p : string) (a : list string) : Sh unit :=
  r <- run p a ;; sh_ret tt.

(** [$(( name / d ))] for a constant [d <> 0]: the contents of the
    variable are evaluated, which may assign variables; the division is
    C's, towards zero.  The result is taken as one word, as it is under
    the default [IFS]; the statements that name the arguments of
    [mkswap] are for contents that assign nothing. *)
Definition arith_div (name : string) (d : Z) : Sh Z :=
  contents <- dollar name ;;
  fun st =>
    let '(r, vars') := arith_eval contents (vars st) in
    let st' := {| world := world st; vars := vars'; ran := ran st |} in
    match r with
    | Some n => (Val (n ÷ d)%Z, st')
    | None => (ShellError, st')
    end.

(** The script.  In the [mkswap] line the words are expanded from left
    to right: ["$swapdisk"] before the arithmetic. *)
Definition resize_swap (argv : list string) : Sh unit :=
  v <- positional argv 1 ;;
  assign "new_size" v ;;
  assign "PATH" "/neonvm/bin" ;;
  assign_cmdsubst "swapdisk" "/neonvm/bin/blkid" ["-L"; "swapdisk"] ;;
  d <- dollar "swapdisk" ;;
  or_true "swapoff" [d] ;;
  s <- dollar "new_size" ;;
  (if bool_decide (s = "0") then exit 0 else sh_ret tt) ;;
  d <- dollar "swapdisk" ;;
  kib <- arith_div "new_size" 1024 ;;
  simple "mkswap" ["-L"; "swapdisk"; d; pretty kib] ;;
  d <- dollar "swapdisk" ;;
  simple "swapon" ["-d"; d].

(** The invocations named in the statements. *)
Definition blkid_L : Invocation :=
  {| env_PATH := "/neonvm/bin"; prog := "/neonvm/bin/blkid";
     args := ["-L"; "swapdisk"] |}.
Definition swapoff (dev : string) : Invocation :=
  {| env_PATH := "/neonvm/bin"; prog := "swapoff"; args := [dev] |}.
Definition mkswap_at (path dev : string) (kib : Z) : Invocation :=
  {| env_PATH := path; prog := "mkswap";
     args := ["-L"; "swapdisk"; dev; pretty kib] |}.
Definition swapon_at (path dev : string) : Invocation :=
  {| env_PATH := path; prog := "swapon"; args := ["-d"; dev] |}.
Definition mkswap (dev : string) (kib : Z) : Invocation :=
  mkswap_at "/neonvm/bin" dev kib.
Definition swapon_d (dev : string) : Invocation :=
  swapon_at "/neonvm/bin" dev.

(** The variables once the first two lines have run, and once [blkid]
    has named the device. *)
Definition vars_start (st : St) (new_size : string) : gmap string string :=
  <["PATH" := "/neonvm/bin"]> (<["new_size" := new_size]> (vars st)).
Definition vars_disk (st : St) (new_size dev : string) : gmap string string :=
  <["swapdisk" := dev]> (vars_start st new_size).

(** The device [blkid] names on the machine of [st]. *)
Definition blkid_dev (st : St) : string :=
  strip_trailing_newlines (exec blkid_L (world st)).1.2.

(** The state once the script has started the given programs, the
    machine being left as [w] and the variables as [vs]. *)
Definition after (st : St) (w : World) (vs : gmap string string)
    (invs : list Invocation) : St :=
  {| world := w; vars := vs; ran := (ran st ++ invs)%list |}.

(** Evaluating the contents [c] assigns no variable, as for a plain
    numeral. *)
Definition assigns_nothing (c : string) : Prop :=
  forall vs, (arith_eval c vs).2 = vs.
End Script.

(** [mkswap] reads its size argument in KiB: the bytes asked for when
    the script is given [n]. *)
Definition requested_bytes (n : Z) : Z := (1024 * (n ÷ 1024))%Z.
End ResizeSwap.

(** ** Instances for the examples *)

Module Examples.
(** Completion as section 3 of the specification words it: the pod is in
    a terminal phase.  The label key is one chosen for the examples. *)
#[local] Instance pod_deps : PodDeps :=
  {| PodCompleted pod :=
       bool_decide (corev1.Phase (corev1.Status pod) = "Succeeded")
       || bool_decide (corev1.Phase (corev1.Status pod) = "Failed");
     LabelVM := "vm.neon.tech/name" |}.

Definition mk_pod (ns name : string) (labels : gmap string string) (phase : string)
  : corev1.Pod :=
  {| corev1.ObjectMeta :=
       {| metav1.Name := name; metav1.Namespace := ns; metav1.Labels := labels |};
     corev1.Status := {| corev1.Phase := phase |} |}.

(** The pod [ns/pod2] of the specification's scenario: not backed by a
    VM, running and then succeeded. *)
Definition pod2_running : corev1.Pod := mk_pod "ns" "pod2" ∅ "Running".
Definition pod2_succeeded : corev1.Pod := mk_pod "ns" "pod2" ∅ "Succeeded".

(** A VM-backed pod. *)
Definition vmpod_running : corev1.Pod :=
  mk_pod "ns" "pod1" {[ "vm.neon.tech/name" := "vm1" ]} "Running".
Definition vmpod_failed : corev1.Pod :=
  mk_pod "ns" "pod1" {[ "vm.neon.tech/name" := "vm1" ]} "Failed".

(** A VM for the examples: its spec holds the autoscaling switch and
    the scaling bounds in resource units; extraction rejects bounds
    that are out of order. *)
Record vm_spec : Type :=
  { autoscaling : bool; min_units : Z; max_units : Z }.
Record vm_info : Type :=
  { info_name : string; info_namespace : string;
    scaling_enabled : bool; bounds : Z * Z }.

#[local] Instance vm_deps : VmDeps :=
  {| VirtualMachineSpec := vm_spec;
     VmInfo := vm_info;
     VmInfo_Namespace := info_namespace;
     VmInfo_ScalingEnabled := scaling_enabled;
     EqualScalingBounds a b := bool_decide (bounds a = bounds b);
     ExtractVmInfo vm :=
       let sp := vmapi.Spec_ vm in
       if (min_units sp <=? max_units sp)%Z then
         inl {| info_name := metav1.Name (vmapi.ObjectMeta vm);
                info_namespace := metav1.Namespace (vmapi.ObjectMeta vm);
                scaling_enabled := autoscaling sp;
                bounds := (min_units sp, max_units sp) |}
       else inr "scaling bounds out of order";
     GetNamespacedName m :=
       {| util.Namespace := metav1.Namespace m; util.Name := metav1.Name m |} |}.

Definition mk_vm (ns name pod : string) (enabled : bool) (lo hi : Z)
  : vmapi.VirtualMachine vm_spec :=
  {| vmapi.ObjectMeta :=
       {| metav1.Name := name; metav1.Namespace := ns; metav1.Labels := ∅ |};
     vmapi.Spec_ := {| autoscaling := enabled; min_units := lo; max_units := hi |};
     vmapi.Status := {| vmapi.PodName := pod |} |}.

(** The VM [ns/vm1] of the specification's scenario, on pod [pod1]. *)
Definition vm1_1_4 := mk_vm "ns" "vm1" "pod1" true 1 4.
Definition vm1_1_8 := mk_vm "ns" "vm1" "pod1" true 1 8.
Definition vm1_1_8_disabled := mk_vm "ns" "vm1" "pod1" false 1 8.
Definition vm1_unscheduled := mk_vm "ns" "vm1" "" false 1 8.
Definition vm1_moved := mk_vm "ns" "vm1" "pod9" true 1 16.
Definition vm1_malformed := mk_vm "ns" "vm1" "pod1" true 8 1.
Definition info_1_8 : vm_info :=
  {| info_name := "vm1"; info_namespace := "ns";
     scaling_enabled := true; bounds := (1, 8)%Z |}.

(** Go's UTF-8 helpers on strings whose runes are single bytes. *)
Fixpoint explode_bytes (k : nat) (s : string) : list string :=
  match k, s with
  | O, _ => []
  | S O, _ => [s]
  | S k', String c s' => String c "" :: explode_bytes k' s'
  | S _, "" => [s]
  end.

#[local] Instance ascii_utf8 : GoUtf8 :=
  {| explode s n :=
       let l := strings.len s in
       let n := if ((n <? 0) || (n >? l))%Z then l else n in
       explode_bytes (Z.to_nat n) s;
     RuneCountInString := strings.len |}.

(** A machine for the examples: one swap device [/dev/vdb], which is
    active or not and has a size in KiB.  [swapoff] fails when the swap
    is not active; the shell's arithmetic reads decimal numerals. *)
Record swap_state : Type := { swap_active : bool; swap_kib : Z }.

Definition digit_value (c : ascii) : option Z :=
  let n := Z.of_N (Ascii.N_of_ascii c) in
  if ((48 <=? n) && (n <=? 57))%Z then Some (n - 48)%Z else None.

Fixpoint decimal_digits (acc : Z) (s : string) : option Z :=
  match s with
  | "" => Some acc
  | String c s' =>
      match digit_value c with
      | Some d => decimal_digits (10 * acc + d) s'
      | None => None
      end
  end.

Definition decimal_value (s : string) : option Z :=
  match s with
  | "" => None
  | _ => decimal_digits 0 s
  end.

Definition example_exec (inv : ResizeSwap.Invocation) (w : swap_state)
  : Z * string * swap_state :=
  if bool_decide (ResizeSwap.prog inv = "/neonvm/bin/blkid") then
    (0%Z, "/dev/vdb" +:+ String "010"%char "", w)
  else if bool_decide (ResizeSwap.prog inv = "swapoff") then
    if swap_active w
    then (0%Z, "", {| swap_active := false; swap_kib := swap_kib w |})
    else (1%Z, "", w)
  else if bool_decide (ResizeSwap.prog inv = "mkswap") then
    match ResizeSwap.args inv !! 3%nat ≫= decimal_value with
    | Some kib => (0%Z, "", {| swap_active := swap_active w; swap_kib := kib |})
    | None => (1%Z, "", w)
    end
  else if bool_decide (ResizeSwap.prog inv = "swapon") then
    (0%Z, "", {| swap_active := true; swap_kib := swap_kib w |})
  else (127%Z, "", w).

(** The arithmetic of the examples reads a decimal numeral, which
    assigns nothing, and an assignment [name=numeral], which sets the
    variable and has the numeral's value; anything else is an error. *)
Definition example_arith (c : string) (vs : gmap string string)
  : option Z * gmap string string :=
  match decimal_value c with
  | Some n => (Some n, vs)
  | None =>
      let i := strings.Index c "=" in
      if (0 <? i)%Z then
        match decimal_value (strings.slice_from c (i + 1)) with
        | Some n => (Some n, <[strings.slice_to c i := pretty n]> vs)
        | None => (None, vs)
        end
      else (None, vs)
  end.

#[local] Instance example_machine : ResizeSwap.Machine :=
  {| ResizeSwap.World := swap_state;
     ResizeSwap.exec := example_exec;
     ResizeSwap.arith_eval := example_arith |}.

Definition swap_start (active : bool) (kib : Z) : ResizeSwap.St :=
  {| ResizeSwap.world := {| swap_active := active; swap_kib := kib |};
     ResizeSwap.vars := {[ "PATH" := "/usr/bin:/bin" ]};
     ResizeSwap.ran := [] |}.
End Examples.

(** ** Streams of pod notifications *)

Module PodStreams.
Section Streams.
Context `{PodDeps}.
Import PodWatch.

(** Modelled from the spec: the engine dispatches against its store, so
    the notifications about one pod object whose stored state is [p] are
    updates from the stored state to a new state of the same object,
    and at most one deletion, of the stored state, after which nothing
    follows for the object. *)
Inductive stream_of : corev1.Pod -> list Event -> Prop :=
| stream_end (p : corev1.Pod) : stream_of p []
| stream_update (p n : corev1.Pod) (rest : list Event) :
    name_of n = name_of p -> stream_of n rest -> stream_of p (Updated p n :: rest)
| stream_delete (p : corev1.Pod) (mayBeStale : bool) :
    stream_of p [Deleted p mayBeStale].

(** No update takes a completed pod back to not completed (the phases
    [Succeeded] and [Failed] of a pod are final). *)
Definition completion_final (evs : list Event) : Prop :=
  Forall (fun ev => match ev with
                    | Updated o n => PodCompleted o = true -> PodCompleted n = true
                    | Deleted _ _ => True
                    end) evs.

Definition is_delete (ev : Event) : bool :=
  match ev with Deleted _ _ => true | Updated _ _ => false end.

Definition is_completion (ev : Event) : bool :=
  match ev with
  | Updated o n => negb (PodCompleted o) && PodCompleted n
  | Deleted _ _ => false
  end.
End Streams.
End PodStreams.

(** ** Work items of the VM handler *)

Module VMItems.
Section Items.
Context `{VmDeps}.
Import VMWatch.

(** The pod a work item is about. *)
Definition item_pod (e : Effect) : option string :=
  match e with
  | SubmitVMDisabledScaling name => Some (util.Name name)
  | SubmitVMBoundsChanged _ podName => Some podName
  | _ => None
  end.

(** What an update with two extracted infos and a scheduled new VM
    submits about scaling being disabled, and about the bounds. *)
Definition disable_part (oldInfo newInfo : VmInfo) (newVM : VirtualMachine) : list Effect :=
  if VmInfo_ScalingEnabled oldInfo && negb (VmInfo_ScalingEnabled newInfo)
  then [SubmitVMDisabledScaling {| util.Namespace := VmInfo_Namespace newInfo;
                                   util.Name := PodName newVM |}]
  else [].

Definition bounds_part (oldInfo newInfo : VmInfo) (oldVM newVM : VirtualMachine)
  : list Effect :=
  if bool_decide (PodName oldVM = PodName newVM)
     && negb (EqualScalingBounds oldInfo newInfo)
  then [SubmitVMBoundsChanged newInfo (PodName newVM)]
  else [].
End Items.
End VMItems.

(** ** A structural reading of [strings.Split] for a one-byte separator *)

Module SplitSpec.
(** The pieces of [s] between the occurrences of the byte [c]. *)
Fixpoint split_byte (c : ascii) (s : string) : list string :=
  match s with
  | "" => [""]
  | String a s' =>
      let r := split_byte c s' in
      if bool_decide (a = c) then "" :: r
      else match r with
           | h :: t => String a h :: t
           | [] => [String a ""]
           end
  end.

(** The pieces put together again, [sep] between them. *)
Fixpoint join (sep : string) (pieces : list string) : string :=
  match pieces with
  | [] => ""
  | [p] => p
  | p :: rest => p +:+ sep +:+ join sep rest
  end.

Fixpoint count_byte (c : ascii) (s : string) : nat :=
  match s with
  | "" => 0
  | String a s' => (if bool_decide (a = c) then 1 else 0) + count_byte c s'
  end.

Definition starts_with (c : ascii) (s : string) : bool :=
  match s with
  | String a _ => bool_decide (a = c)
  | "" => false
  end.

Fixpoint ends_with (c : ascii) (s : string) : bool :=
  match s with
  | "" => false
  | String a "" => bool_decide (a = c)
  | String _ s' => ends_with c s'
  end.

(** Two bytes [c] next to each other somewhere in [s]. *)
Fixpoint has_adjacent (c : ascii) (s : string) : bool :=
  match s with
  | "" => false
  | String a s' => (bool_decide (a = c) && starts_with c s') || has_adjacent c s'
  end.

Definition comma : ascii := ","%char.
End SplitSpec.

(** ** checkIfRunningInK3sCluster *)

Module K3sCheck.
(** Go errors with their chain: [errors.New]-like leaves and what
    [fmt.Errorf] builds for a format ending in [: %w]. *)
Inductive error : Type :=
| leafError (msg : string)
| wrapError (msg : string) (err : error).

Definition Error_ (e : error) : string :=
  match e with leafError m => m | wrapError m _ => m end.

Definition Unwrap (e : error) : option error :=
  match e with leafError _ => None | wrapError _ inner => Some inner end.

(** [fmt.Errorf(prefix + ": %w", err)] *)
Definition Errorf_w (prefix : string) (err : error) : error :=
  wrapError (prefix +:+ ": " +:+ Error_ err) err.

(** [strings.HasPrefix] *)
Definition HasPrefix (s prefix : string) : bool :=
  (strings.len s >=? strings.len prefix)%Z
  && bool_decide (strings.slice_to s (strings.len prefix) = prefix).

(** The part of [corev1.Node] that is read. *)
Record NodeSystemInfo : Type := { OSImage : string }.
Record NodeStatus : Type := { NodeInfo : NodeSystemInfo }.
Record Node : Type := { Status : NodeStatus }.

(** The client library: building a clientset from a configuration and
    listing the nodes with it. *)
Class Client : Type :=
  { Config : Type;
    Clientset : Type;
    NewForConfig : Config -> Clientset + error;
    NodesList : Clientset -> list Node + error }.

Section Check.
Context `{Client}.
Local Open Scope act_scope.

Inductive Effect : Type :=
| CallNewForConfig (cfg : Config)
| WithTimeout (seconds : Z)
| CallNodesList (client : Clientset)
| Cancel.

(** The [for ... range] loop with its early [return true, nil]. *)
Fixpoint range_nodes (items : list Node) : bool :=
  match items with
  | [] => false
  | node :: rest =>
      if HasPrefix (OSImage (NodeInfo (Status node))) "K3s" then true
      else range_nodes rest
  end.

Definition checkIfRunningInK3sCluster (cfg : Config) : Act Effect (bool * option error) :=
  emit (CallNewForConfig cfg) ;;
  match NewForConfig cfg with
  | inr err => ret (false, Some (Errorf_w "failed to create new k8s client" err))
  | inl client =>
      emit (WithTimeout 10) ;;
      r <- (emit (CallNodesList client) ;;
            match NodesList client with
            | inr err => ret (false, Some err)
            | inl items => ret (range_nodes items, None)
            end) ;;
      (* deferred *)
      emit Cancel ;;
      ret r
  end.
End Check.
End K3sCheck.

(** ** The handler of the debug server *)

Module DebugServer.
(** The reconcilers and their snapshots belong to the [controllers]
    package, [json.Marshal] to Go's library. *)
Class Deps : Type :=
  { Reconciler : Type;
    ReconcileSnapshot : Type;
    Snapshot : Reconciler -> ReconcileSnapshot;
    json_Marshal : list ReconcileSnapshot -> string + GoError }.

Definition MethodGet : string := "GET".
Definition StatusOK : Z := 200.
Definition StatusMethodNotAllowed : Z := 405.
Definition StatusInternalServerError : Z := 500.

Section Handler.
Context `{Deps}.
Local Open Scope act_scope.

Inductive Effect : Type :=
| WriteHeader (code : Z)
| Write (body : string)
| CallSnapshot (r : Reconciler)
| BodyClose.

(** [for _, r := range reconcilers { response = append(response, r.Snapshot()) }] *)
Fixpoint range_reconcilers (rs : list Reconciler) (response : list ReconcileSnapshot)
  : Act Effect (list ReconcileSnapshot) :=
  match rs with
  | [] => ret response
  | r :: rest =>
      emit (CallSnapshot r) ;;
      range_reconcilers rest (response ++ [Snapshot r])%list
  end.

(** The function registered for the pattern [/], for a request with the
    given method; [defer r.Body.Close()] runs when it returns. *)
Definition handler (reconcilers : list Reconciler) (method : string) : Act Effect unit :=
  (if bool_decide (method <> MethodGet) then
     emit (WriteHeader StatusMethodNotAllowed) ;;
     emit (Write ("request method must be " +:+ MethodGet))
   else
     response <- range_reconcilers reconcilers [] ;;
     match json_Marshal response with
     | inr err =>
         emit (WriteHeader StatusInternalServerError) ;;
         emit (Write ("failed to marshal JSON response: " +:+ err))
     | inl responseBody =>
         emit (WriteHeader StatusOK) ;;
         emit (Write responseBody)
     end) ;;
  emit BodyClose.

(** What goes to the [http.ResponseWriter]. *)
Definition is_response (e : Effect) : bool :=
  match e with WriteHeader _ | Write _ => true | _ => false end.

Definition snapshot_calls (t : list Effect) : list Reconciler :=
  omap (fun e => match e with CallSnapshot r => Some r | _ => None end) t.
End Handler.
End DebugServer.

(** ** Further instances for the examples *)

Module MoreExamples.
Import Examples.
#[local] Existing Instance pod_deps.

(** The life of the pod [ns/pod2]: an update that changes nothing, its
    completion, an update after completion and a deletion inferred from
    a relist. *)
Definition pod2_stream : list PodWatch.Event :=
  [PodWatch.Updated pod2_running pod2_running;
   PodWatch.Updated pod2_running pod2_succeeded;
   PodWatch.Updated pod2_succeeded pod2_succeeded;
   PodWatch.Deleted pod2_succeeded true].

(** A cluster for the examples: building the client fails for the
    configuration [false]; listing fails for the client [0] and gives
    a node list otherwise. *)
Definition mk_node (image : string) : K3sCheck.Node :=
  {| K3sCheck.Status :=
       {| K3sCheck.NodeInfo := {| K3sCheck.OSImage := image |} |} |}.

#[local] Instance example_client : K3sCheck.Client :=
  {| K3sCheck.Config := bool;
     K3sCheck.Clientset := nat;
     K3sCheck.NewForConfig cfg :=
       if cfg then inl 1 else inr (K3sCheck.leafError "no kubeconfig");
     K3sCheck.NodesList client :=
       match client with
       | O => inr (K3sCheck.leafError "connection refused")
       | _ => inl [mk_node "Ubuntu 22.04.3 LTS"; mk_node "K3s v1.27.3+k3s1"]
       end |}.

(** Reconcilers for the examples are numbers, their own snapshots;
    marshalling refuses negative numbers. *)
#[local] Instance example_debug_deps : DebugServer.Deps :=
  {| DebugServer.Reconciler := Z;
     DebugServer.ReconcileSnapshot := Z;
     DebugServer.Snapshot r := r;
     DebugServer.json_Marshal l :=
       if forallb (fun z => (0 <=? z)%Z) l
       then inl ("[" +:+ SplitSpec.join "," (pretty <$> l) +:+ "]")
       else inr "json: unsupported value" |}.

(** A machine without a disk labelled [swapdisk]: [blkid] ends with
    status 2, everything else works as on the example machine. *)
#[local] Instance diskless_machine : ResizeSwap.Machine :=
  {| ResizeSwap.World := swap_state;
     ResizeSwap.exec inv w :=
       if bool_decide (ResizeSwap.prog inv = "/neonvm/bin/blkid") then (2%Z, "", w)
       else example_exec inv w;
     ResizeSwap.arith_eval := example_arith |}.
End MoreExamples.

(** * Properties *)

(** ** The effect monad *)

Lemma trace_bind {E A B} (m : Act E A) (k : A -> Act E B) :
  trace (bind m k) = (trace m ++ trace (k m.1))%list.
Proof. destruct m as [a t]. unfold bind, trace. simpl. by destruct (k a). Qed.

(** ** The pod handlers *)

Section PodWatchProperties.
Context `{PodDeps}.
Import PodWatch.

Lemma has_key_true (pod : corev1.Pod) :
  has_vm_label pod -> has_key (metav1.Labels (corev1.ObjectMeta pod)) LabelVM = true.
Proof. intros Hl. unfold has_key. by apply bool_decide_eq_true_2. Qed.

Lemma has_key_false (pod : corev1.Pod) :
  ¬ has_vm_label pod -> has_key (metav1.Labels (corev1.ObjectMeta pod)) LabelVM = false.
Proof. intros Hl. unfold has_key. by apply bool_decide_eq_false_2. Qed.

(** The whole trace of an update that completes a pod. *)
Lemma UpdateFunc_completion (oldPod newPod : corev1.Pod) :
  PodCompleted oldPod = false -> PodCompleted newPod = true ->
  work_items (trace (UpdateFunc oldPod newPod)) = [removal_item newPod].
Proof.
  intros Ho Hn. unfold UpdateFunc, removal_item. rewrite Ho, Hn. simpl.
  by destruct (has_key _ _).
Qed.

Lemma UpdateFunc_no_edge (oldPod newPod : corev1.Pod) :
  PodCompleted oldPod = true \/ PodCompleted newPod = false ->
  trace (UpdateFunc oldPod newPod) = [].
Proof.
  intros [Ho | Hn]; unfold UpdateFunc.
  - by rewrite Ho.
  - rewrite Hn. by destruct (PodCompleted oldPod).
Qed.

Lemma DeleteFunc_running (pod : corev1.Pod) (mayBeStale : bool) :
  PodCompleted pod = false ->
  work_items (trace (DeleteFunc pod mayBeStale)) = [removal_item pod].
Proof.
  intros Hp. unfold DeleteFunc, removal_item. rewrite Hp. simpl.
  by destruct (has_key _ _).
Qed.

Lemma DeleteFunc_completed (pod : corev1.Pod) (mayBeStale : bool) :
  PodCompleted pod = true ->
  work_items (trace (DeleteFunc pod mayBeStale)) = [].
Proof. intros Hp. unfold DeleteFunc. by rewrite Hp. Qed.

Lemma removal_item_vm (pod : corev1.Pod) :
  has_vm_label pod -> removal_item pod = SubmitVMDeletion (name_of pod).
Proof. intros Hl. unfold removal_item. by rewrite has_key_true. Qed.

Lemma removal_item_plain (pod : corev1.Pod) :
  ¬ has_vm_label pod -> removal_item pod = SubmitPodDeletion (name_of pod).
Proof. intros Hl. unfold removal_item. by rewrite has_key_false. Qed.

Lemma work_items_app (t1 t2 : list Effect) :
  work_items (t1 ++ t2)%list = (work_items t1 ++ work_items t2)%list.
Proof. unfold work_items. apply List.filter_app. Qed.

(** C4.  An update of a pod submits a work item exactly on the edge from
    not completed to completed: then it is one removal item keyed by the
    new pod's name, sent to the VM-removal callback when the pod carries
    the VM label and to the pod-removal callback when it does not; with
    the old pod already completed, or the new pod not completed, nothing
    is submitted. *)
Theorem pod_update_submits_on_completion_edge (oldPod newPod : corev1.Pod) :
  let items := work_items (trace (UpdateFunc oldPod newPod)) in
  (PodCompleted oldPod = false -> PodCompleted newPod = true ->
   (has_vm_label newPod -> items = [SubmitVMDeletion (name_of newPod)]) /\
   (¬ has_vm_label newPod -> items = [SubmitPodDeletion (name_of newPod)])) /\
  (PodCompleted oldPod = true \/ PodCompleted newPod = false -> items = []).
Proof.
  simpl. split.
  - intros Ho Hn. rewrite (UpdateFunc_completion _ _ Ho Hn). split; intros Hl.
    + by rewrite removal_item_vm.
    + by rewrite removal_item_plain.
  - intros Hc. by rewrite UpdateFunc_no_edge.
Qed.

(** C5.  A delete event for a pod that is not completed submits one
    removal item keyed by the pod's name (VM-labelled pods to the
    VM-removal callback, the others to the pod-removal callback); a
    delete event for a completed pod submits nothing. *)
Theorem pod_delete_submits_unless_completed (pod : corev1.Pod) (mayBeStale : bool) :
  let items := work_items (trace (DeleteFunc pod mayBeStale)) in
  (PodCompleted pod = false ->
   (has_vm_label pod -> items = [SubmitVMDeletion (name_of pod)]) /\
   (¬ has_vm_label pod -> items = [SubmitPodDeletion (name_of pod)])) /\
  (PodCompleted pod = true -> items = []).
Proof.
  simpl. split.
  - intros Hp. rewrite (DeleteFunc_running _ _ Hp). split; intros Hl.
    + by rewrite removal_item_vm.
    + by rewrite removal_item_plain.
  - apply DeleteFunc_completed.
Qed.

(** C2.  For the two events on one pod, an update from not completed to
    completed followed by a delete event for the completed pod, the
    handlers submit one removal item in total: the update submits it and
    the delete submits nothing. *)
Theorem pod_completion_then_delete_submits_once
    (oldPod newPod : corev1.Pod) (mayBeStale : bool) :
  PodCompleted oldPod = false -> PodCompleted newPod = true ->
  work_items (trace (UpdateFunc oldPod newPod)) = [removal_item newPod] /\
  work_items (trace (DeleteFunc newPod mayBeStale)) = [] /\
  work_items (trace (deliver [Updated oldPod newPod; Deleted newPod mayBeStale]))
    = [removal_item newPod] /\
  length (work_items
            (trace (deliver [Updated oldPod newPod; Deleted newPod mayBeStale]))) = 1%nat.
Proof.
  intros Ho Hn.
  assert (Hu := UpdateFunc_completion _ _ Ho Hn).
  assert (Hd := DeleteFunc_completed newPod mayBeStale Hn).
  assert (Hboth : work_items
            (trace (deliver [Updated oldPod newPod; Deleted newPod mayBeStale]))
          = [removal_item newPod]).
  { simpl deliver. rewrite !trace_bind, !work_items_app. simpl handle.
    rewrite Hu, Hd. reflexivity. }
  repeat split; try done. by rewrite Hboth.
Qed.

(** C8.  The pod delete handler does the same whatever [mayBeStale] is:
    the same effects, hence the same work items, for a stale and for a
    directly observed deletion; and what it submits is fixed by the
    pod's name, its completion state and the presence of the VM label. *)
Theorem pod_delete_ignores_mayBeStale (pod : corev1.Pod) :
  DeleteFunc pod true = DeleteFunc pod false /\
  work_items (trace (DeleteFunc pod true)) = work_items (trace (DeleteFunc pod false)) /\
  (forall (pod' : corev1.Pod) (b b' : bool),
      name_of pod = name_of pod' ->
      PodCompleted pod = PodCompleted pod' ->
      (has_vm_label pod <-> has_vm_label pod') ->
      work_items (trace (DeleteFunc pod b)) = work_items (trace (DeleteFunc pod' b'))).
Proof.
  split; [reflexivity |]. split; [reflexivity |].
  intros pod' b b' Hname Hc Hl.
  destruct (PodCompleted pod) eqn:Hp; symmetry in Hc.
  - by rewrite !DeleteFunc_completed.
  - rewrite !DeleteFunc_running by done.
    destruct (decide (has_vm_label pod)) as [Hv | Hv].
    + rewrite !removal_item_vm by tauto. by rewrite Hname.
    + rewrite !removal_item_plain by tauto. by rewrite Hname.
Qed.
End PodWatchProperties.

Section PodWatchExamples.
Import PodWatch Examples.
Local Existing Instance pod_deps.

Lemma pod2_unlabelled : ¬ has_vm_label pod2_succeeded.
Proof. intros [v Hv]. vm_compute in Hv. discriminate Hv. Qed.

Lemma vmpod_labelled : has_vm_label vmpod_failed.
Proof. exists "vm1". reflexivity. Qed.

(** The plain pod [ns/pod2] going from running to succeeded gives one
    pod-removal item; the VM pod going to failed gives one VM-removal
    item; an update of an already succeeded pod gives nothing. *)
Lemma pod_update_submits_on_completion_edge_witness :
  work_items (trace (UpdateFunc pod2_running pod2_succeeded))
    = [SubmitPodDeletion {| util.Namespace := "ns"; util.Name := "pod2" |}] /\
  work_items (trace (UpdateFunc vmpod_running vmpod_failed))
    = [SubmitVMDeletion {| util.Namespace := "ns"; util.Name := "pod1" |}] /\
  work_items (trace (UpdateFunc pod2_succeeded pod2_succeeded)) = [].
Proof.
  split; [| split].
  - apply (proj1 (pod_update_submits_on_completion_edge pod2_running pod2_succeeded));
      [reflexivity | reflexivity | exact pod2_unlabelled].
  - apply (proj1 (pod_update_submits_on_completion_edge vmpod_running vmpod_failed));
      [reflexivity | reflexivity | exact vmpod_labelled].
  - apply (proj2 (pod_update_submits_on_completion_edge pod2_succeeded pod2_succeeded)).
    left. reflexivity.
Defined.

Lemma pod_delete_submits_unless_completed_witness :
  work_items (trace (DeleteFunc vmpod_running false))
    = [SubmitVMDeletion {| util.Namespace := "ns"; util.Name := "pod1" |}] /\
  work_items (trace (DeleteFunc pod2_succeeded false)) = [].
Proof.
  split.
  - apply (proj1 (pod_delete_submits_unless_completed vmpod_running false));
      [reflexivity | exists "vm1"; reflexivity].
  - apply (proj2 (pod_delete_submits_unless_completed pod2_succeeded false)).
    reflexivity.
Defined.

(** The scenario of the specification: [ns/pod2] running, then
    succeeded, then deleted. *)
Lemma pod_completion_then_delete_submits_once_witness :
  work_items
    (trace (deliver [Updated pod2_running pod2_succeeded; Deleted pod2_succeeded false]))
    = [SubmitPodDeletion {| util.Namespace := "ns"; util.Name := "pod2" |}].
Proof.
  apply (pod_completion_then_delete_submits_once pod2_running pod2_succeeded false);
    reflexivity.
Defined.

Lemma pod_delete_ignores_mayBeStale_witness :
  work_items (trace (DeleteFunc vmpod_running true))
    = work_items (trace (DeleteFunc vmpod_running false)).
Proof.
  apply (proj2 (proj2 (pod_delete_ignores_mayBeStale vmpod_running)) vmpod_running);
    [reflexivity | reflexivity | split; intros Hl; exact Hl].
Defined.
End PodWatchExamples.

(** ** The VM handler *)

Section VMWatchProperties.
Context `{VmDeps}.
Import VMWatch.

(** Both extractions succeed and the new VM has a pod: what the handler
    does then. *)
Lemma UpdateFunc_scheduled (oldVM newVM : VirtualMachine) (oldInfo newInfo : VmInfo) :
  ExtractVmInfo oldVM = inl oldInfo ->
  ExtractVmInfo newVM = inl newInfo ->
  PodName newVM <> "" ->
  trace (UpdateFunc oldVM newVM) =
    ([CallExtractVmInfo oldVM; CallExtractVmInfo newVM]
     ++ (if VmInfo_ScalingEnabled oldInfo && negb (VmInfo_ScalingEnabled newInfo)
         then
           let name := {| util.Namespace := VmInfo_Namespace newInfo;
                          util.Name := PodName newVM |} in
           [Klog Info
              "[autoscale-enforcer] watch: Received update to disable autoscaling for pod %v"
              [ArgName name];
            SubmitVMDisabledScaling name]
         else [])
     ++ (if bool_decide (PodName oldVM = PodName newVM)
            && negb (EqualScalingBounds oldInfo newInfo)
         then [SubmitVMBoundsChanged newInfo (PodName newVM)]
         else []))%list.
Proof.
  intros Ho Hn Hpod. unfold UpdateFunc, call_ExtractVmInfo.
  rewrite !trace_bind. simpl. rewrite Ho. simpl. rewrite Hn. simpl.
  rewrite (bool_decide_eq_false_2 _ Hpod). simpl.
  destruct (VmInfo_ScalingEnabled oldInfo), (VmInfo_ScalingEnabled newInfo);
    simpl; repeat case_bool_decide; try congruence;
    destruct (EqualScalingBounds oldInfo newInfo); reflexivity.
Qed.

(** C1.  When both extractions succeed and the new VM has a pod name,
    the update submits either nothing or the single bounds-changed item
    carrying the new VmInfo and the new pod name, and it submits that
    item exactly when the old and new pod names are equal and the
    scaling bounds are not equal.  So equal bounds submit nothing, and a
    changed pod name submits nothing even when the bounds differ. *)
Theorem vm_update_bounds_changed_iff
    (oldVM newVM : VirtualMachine) (oldInfo newInfo : VmInfo) :
  ExtractVmInfo oldVM = inl oldInfo ->
  ExtractVmInfo newVM = inl newInfo ->
  PodName newVM <> "" ->
  let items := bounds_items (trace (UpdateFunc oldVM newVM)) in
  let item := SubmitVMBoundsChanged newInfo (PodName newVM) in
  (items = [item] \/ items = []) /\
  (items = [item] <->
     PodName oldVM = PodName newVM /\ EqualScalingBounds oldInfo newInfo = false) /\
  (EqualScalingBounds oldInfo newInfo = true -> items = []) /\
  (PodName oldVM <> PodName newVM -> items = []).
Proof.
  intros Ho Hn Hpod. simpl.
  rewrite (UpdateFunc_scheduled _ _ _ _ Ho Hn Hpod).
  unfold bounds_items. rewrite !List.filter_app.
  replace (List.filter is_bounds
             (if VmInfo_ScalingEnabled oldInfo && negb (VmInfo_ScalingEnabled newInfo)
              then _ else [])) with (@nil Effect)
    by (by destruct (_ && _)).
  simpl.
  case_bool_decide as Hp; destruct (EqualScalingBounds oldInfo newInfo); simpl;
    repeat split; try tauto; try congruence; try (intros [? ?]; congruence); auto.
Qed.

(** C3.  When both extractions succeed, the new VM has a pod name, the
    old info has scaling enabled and the new info has it disabled, the
    update submits exactly one disable-scaling item; its key has the
    namespace of the new VM's info and the new VM's status pod name
    (the new VM's own namespace, when extraction copies it). *)
Theorem vm_update_disable_scaling
    (oldVM newVM : VirtualMachine) (oldInfo newInfo : VmInfo) :
  ExtractVmInfo oldVM = inl oldInfo ->
  ExtractVmInfo newVM = inl newInfo ->
  PodName newVM <> "" ->
  VmInfo_ScalingEnabled oldInfo = true ->
  VmInfo_ScalingEnabled newInfo = false ->
  disable_items (trace (UpdateFunc oldVM newVM))
    = [SubmitVMDisabledScaling {| util.Namespace := VmInfo_Namespace newInfo;
                                  util.Name := PodName newVM |}] /\
  (VmInfo_Namespace newInfo = metav1.Namespace (vmapi.ObjectMeta newVM) ->
   disable_items (trace (UpdateFunc oldVM newVM))
     = [SubmitVMDisabledScaling
          {| util.Namespace := metav1.Namespace (vmapi.ObjectMeta newVM);
             util.Name := PodName newVM |}]).
Proof.
  intros Ho Hn Hpod Heo Hen.
  assert (Hd : disable_items (trace (UpdateFunc oldVM newVM))
               = [SubmitVMDisabledScaling {| util.Namespace := VmInfo_Namespace newInfo;
                                             util.Name := PodName newVM |}]).
  { rewrite (UpdateFunc_scheduled _ _ _ _ Ho Hn Hpod), Heo, Hen.
    unfold disable_items. simpl. by destruct (_ && _). }
  split; [exact Hd |]. intros Hns. rewrite Hd. by rewrite Hns.
Qed.

(** C6.  If extraction fails for the old VM, the handler logs one error
    and returns: nothing is submitted and the new VM is never
    extracted.  If it succeeds for the old VM and fails for the new
    one, the handler logs one error and returns with nothing
    submitted.  Neither path logs at the fatal severity. *)
Theorem vm_update_extraction_failure (oldVM newVM : VirtualMachine) :
  (forall err, ExtractVmInfo oldVM = inr err ->
     UpdateFunc oldVM newVM =
       (tt, [CallExtractVmInfo oldVM;
             Klog Error "[autoscale-enforcer] Error extracting VM info for %v: %s"
                  [ArgName (GetNamespacedName (vmapi.ObjectMeta oldVM)); ArgErr err]]) /\
     work_items (trace (UpdateFunc oldVM newVM)) = [] /\
     extracted (trace (UpdateFunc oldVM newVM)) = [oldVM] /\
     List.filter is_fatal (trace (UpdateFunc oldVM newVM)) = []) /\
  (forall oldInfo err, ExtractVmInfo oldVM = inl oldInfo -> ExtractVmInfo newVM = inr err ->
     UpdateFunc oldVM newVM =
       (tt, [CallExtractVmInfo oldVM; CallExtractVmInfo newVM;
             Klog Error "[autoscale-enforcer] Error extracting VM info for %v: %s"
                  [ArgName (GetNamespacedName (vmapi.ObjectMeta newVM)); ArgErr err]]) /\
     work_items (trace (UpdateFunc oldVM newVM)) = [] /\
     extracted (trace (UpdateFunc oldVM newVM)) = [oldVM; newVM] /\
     List.filter is_fatal (trace (UpdateFunc oldVM newVM)) = []).
Proof.
  split.
  - intros err Ho.
    assert (Hu : UpdateFunc oldVM newVM =
       (tt, [CallExtractVmInfo oldVM;
             Klog Error "[autoscale-enforcer] Error extracting VM info for %v: %s"
                  [ArgName (GetNamespacedName (vmapi.ObjectMeta oldVM)); ArgErr err]])).
    { unfold UpdateFunc, call_ExtractVmInfo. simpl. rewrite Ho. reflexivity. }
    rewrite Hu. repeat split.
  - intros oldInfo err Ho Hn.
    assert (Hu : UpdateFunc oldVM newVM =
       (tt, [CallExtractVmInfo oldVM; CallExtractVmInfo newVM;
             Klog Error "[autoscale-enforcer] Error extracting VM info for %v: %s"
                  [ArgName (GetNamespacedName (vmapi.ObjectMeta newVM)); ArgErr err]])).
    { unfold UpdateFunc, call_ExtractVmInfo. simpl. rewrite Ho. simpl. rewrite Hn.
      reflexivity. }
    rewrite Hu. repeat split.
Qed.

(** C7.  When both extractions succeed and the new VM's status pod name
    is empty, the update is dropped: neither a disable-scaling nor a
    bounds-changed item is submitted, whatever the scaling flags and
    bounds of the two infos are. *)
Theorem vm_update_unscheduled_dropped
    (oldVM newVM : VirtualMachine) (oldInfo newInfo : VmInfo) :
  ExtractVmInfo oldVM = inl oldInfo ->
  ExtractVmInfo newVM = inl newInfo ->
  PodName newVM = "" ->
  work_items (trace (UpdateFunc oldVM newVM)) = [] /\
  disable_items (trace (UpdateFunc oldVM newVM)) = [] /\
  bounds_items (trace (UpdateFunc oldVM newVM)) = [].
Proof.
  intros Ho Hn Hpod.
  assert (Hu : trace (UpdateFunc oldVM newVM) =
    [CallExtractVmInfo oldVM; CallExtractVmInfo newVM;
     Klog Info
       "[autoscale-enforcer] Skipping update for VM %v because .status.podName is empty"
       [ArgName (GetNamespacedName (vmapi.ObjectMeta newVM))]]).
  { unfold UpdateFunc, call_ExtractVmInfo. simpl. rewrite Ho. simpl. rewrite Hn. simpl.
    rewrite (bool_decide_eq_true_2 _ Hpod). reflexivity. }
  rewrite Hu. repeat split.
Qed.
End VMWatchProperties.

Section VMWatchExamples.
Import VMWatch Examples.
Local Existing Instance vm_deps.

(** The scenario of the specification: the bounds of [ns/vm1] go from
    [1,4] to [1,8] (one bounds-changed item with the new info and
    [pod1]); the same update again submits nothing; so does a change of
    bounds together with a move to another pod. *)
Lemma vm_update_bounds_changed_iff_witness :
  bounds_items (trace (UpdateFunc vm1_1_4 vm1_1_8))
    = [SubmitVMBoundsChanged info_1_8 "pod1"] /\
  bounds_items (trace (UpdateFunc vm1_1_8 vm1_1_8)) = [] /\
  bounds_items (trace (UpdateFunc vm1_1_8 vm1_moved)) = [].
Proof.
  split; [| split].
  - apply (proj2 (proj1 (proj2
             (@vm_update_bounds_changed_iff vm_deps vm1_1_4 vm1_1_8 _ info_1_8
                eq_refl eq_refl ltac:(discriminate)))));
      split; reflexivity.
  - apply (proj1 (proj2 (proj2
             (@vm_update_bounds_changed_iff vm_deps vm1_1_8 vm1_1_8 _ _
                eq_refl eq_refl ltac:(discriminate))))).
    reflexivity.
  - apply (proj2 (proj2 (proj2
             (@vm_update_bounds_changed_iff vm_deps vm1_1_8 vm1_moved _ _
                eq_refl eq_refl ltac:(discriminate))))).
    discriminate.
Defined.

(** Then scaling is disabled: one disable-scaling item for [ns/pod1]. *)
Lemma vm_update_disable_scaling_witness :
  disable_items (trace (UpdateFunc vm1_1_8 vm1_1_8_disabled))
    = [SubmitVMDisabledScaling {| util.Namespace := "ns"; util.Name := "pod1" |}].
Proof.
  apply (proj1 (@vm_update_disable_scaling vm_deps vm1_1_8 vm1_1_8_disabled _ _
                  eq_refl eq_refl ltac:(discriminate) eq_refl eq_refl)).
Defined.

Lemma vm_update_extraction_failure_witness :
  work_items (trace (UpdateFunc vm1_malformed vm1_1_8)) = [] /\
  extracted (trace (UpdateFunc vm1_malformed vm1_1_8)) = [vm1_malformed] /\
  work_items (trace (UpdateFunc vm1_1_4 vm1_malformed)) = [].
Proof.
  split; [| split].
  - apply (proj1 (@vm_update_extraction_failure vm_deps vm1_malformed vm1_1_8) _ eq_refl).
  - apply (proj1 (@vm_update_extraction_failure vm_deps vm1_malformed vm1_1_8) _ eq_refl).
  - apply (proj2 (@vm_update_extraction_failure vm_deps vm1_1_4 vm1_malformed) _ _ eq_refl eq_refl).
Defined.

(** Scaling is disabled and the bounds change, but the new VM has no
    pod yet: nothing is submitted. *)
Lemma vm_update_unscheduled_dropped_witness :
  work_items (trace (UpdateFunc vm1_1_4 vm1_unscheduled)) = [].
Proof.
  apply (@vm_update_unscheduled_dropped vm_deps vm1_1_4 vm1_unscheduled _ _ eq_refl eq_refl eq_refl).
Defined.
End VMWatchExamples.

(** ** Go's [strings] functions *)

Section StringsProperties.
Import strings.

Lemma drop_length (n : nat) (s : string) :
  String.length (drop n s) = (String.length s - n)%nat.
Proof.
  revert s. induction n as [| n IH]; intros [| c s]; simpl; done.
Qed.

Lemma prefix_empty_r (substr : string) :
  substr <> "" -> String.prefix substr "" = false.
Proof. by destruct substr. Qed.

Lemma Index_lower (s substr : string) : (-1 <= Index s substr)%Z.
Proof.
  induction s as [| c s IH]; cbn [Index].
  - destruct (String.prefix substr ""); lia.
  - destruct (String.prefix substr (String c s)); [lia |].
    destruct (Z.ltb_spec (Index s substr) 0); lia.
Qed.

Lemma Index_found_nonempty (s substr : string) :
  substr <> "" -> Index s substr <> (-1)%Z -> s <> "".
Proof.
  intros Hsub Hi ->. apply Hi. cbn [Index]. by rewrite prefix_empty_r.
Qed.

(** One round of the loops of [Count] and [genSplit] leaves a strictly
    shorter string. *)
Lemma slice_from_shorter (s substr : string) :
  substr <> "" -> Index s substr <> (-1)%Z ->
  (String.length (slice_from s (Index s substr + len substr)) < String.length s)%nat.
Proof.
  intros Hsub Hi. unfold slice_from. rewrite drop_length.
  assert (Hs := Index_found_nonempty _ _ Hsub Hi).
  assert (Hl := Index_lower s substr).
  assert (0 < String.length s)%nat by (destruct s; simpl; [done | lia]).
  assert (0 < len substr)%Z by (unfold len; destruct substr; simpl; [done | lia]).
  lia.
Qed.

(** The fuel of [Count] is enough: more fuel gives the same count. *)
Lemma Count_loop_fuel (substr : string) (fuel fuel' : nat) (s : string) (n : Z) :
  substr <> "" ->
  (String.length s < fuel)%nat -> (fuel <= fuel')%nat ->
  Count_loop fuel' s substr n = Count_loop fuel s substr n.
Proof.
  intros Hsub. revert fuel' s n.
  induction fuel as [| fuel IH]; intros fuel' s n Hlen Hle; [lia |].
  destruct fuel' as [| fuel']; [lia |]. simpl.
  destruct (Z.eqb_spec (Index s substr) (-1)) as [| Hi]; [done |].
  apply IH; [| lia].
  pose proof (slice_from_shorter s substr Hsub Hi). lia.
Qed.

Context `{GoUtf8}.

(** With a limit of one piece, [SplitN] returns the string whole. *)
Lemma SplitN_one (s sep : string) : sep <> "" -> SplitN s sep 1 = [s].
Proof.
  intros Hsep. unfold SplitN, genSplit. simpl.
  rewrite (bool_decide_eq_false_2 _ Hsep).
  assert (Hn : (1 >? len s + 1)%Z = false)
    by (rewrite Z.gtb_ltb; apply Z.ltb_ge; unfold len; lia).
  rewrite Hn. reflexivity.
Qed.
End StringsProperties.

(** ** The flag parser *)

Section FlagProperties.
Context `{GoUtf8}.
Import SkipUpdateValidationFlag.

Lemma entry_name_default (name : string) :
  entry_name name = Some (default_name name).
Proof.
  unfold entry_name. rewrite SplitN_one by discriminate. reflexivity.
Qed.

Lemma range_names_spec (names : list string) (acc : gset types.NamespacedName) :
  range_names names acc =
    if has_empty names then Exits (ReturnErr "name must not be empty")
    else Finished (list_to_set (default_name <$> names) ∪ acc).
Proof.
  revert acc. induction names as [| name rest IH]; intros acc; simpl.
  - by rewrite (left_id_L ∅ (∪)).
  - case_bool_decide as Hname; simpl; [done |].
    rewrite entry_name_default, IH.
    destruct (has_empty rest); [done |]. f_equal.
    rewrite (assoc_L (∪)). f_equal. apply (comm_L (∪)).
Qed.

(** What a call of the flag function does, in all cases. *)
Lemma flag_func_spec (value : string) (skip : option (gset types.NamespacedName)) :
  flag_func value skip =
    if bool_decide (value = "") then (ReturnNil, Some ∅)
    else if has_empty (strings.Split value ",")
         then (ReturnErr "name must not be empty", skip)
         else (ReturnNil, Some (list_to_set (default_name <$> strings.Split value ","))).
Proof.
  unfold flag_func. destruct (decide (value = "")) as [Hv | Hv].
  - rewrite (bool_decide_eq_true_2 _ Hv).
    rewrite bool_decide_eq_false_2 by tauto. reflexivity.
  - rewrite (bool_decide_eq_false_2 _ Hv), (bool_decide_eq_true_2 _ Hv).
    rewrite range_names_spec.
    destruct (has_empty _); [done |]. by rewrite (right_id_L ∅ (∪)).
Qed.

Lemma has_empty_false (names : list string) :
  Forall (fun e => e <> "") names -> has_empty names = false.
Proof.
  induction 1 as [| e rest He _ IH]; simpl; [done |].
  by rewrite (bool_decide_eq_false_2 _ He).
Qed.

(** C9.  Every entry of the flag value is turned into the name with
    namespace [default] and the whole entry as its name, a slash in it
    included: [strings.SplitN] with a limit of one returns the entry as
    its only element, so the branch for a length of one is the one
    taken.  A value whose entries are all non-empty sets the variable to
    exactly these names. *)
Theorem skip_update_validation_entries_default
    (value : string) (skip : option (gset types.NamespacedName)) :
  (forall name : string,
      strings.SplitN name "/" 1 = [name] /\
      length (strings.SplitN name "/" 1) = 1%nat /\
      entry_name name = Some {| types.Namespace := "default"; types.Name := name |}) /\
  (value <> "" ->
   Forall (fun e => e <> "") (strings.Split value ",") ->
   flag_func value skip =
     (ReturnNil,
      Some (list_to_set
              ((fun e => {| types.Namespace := "default"; types.Name := e |})
                 <$> strings.Split value ",")))).
Proof.
  split.
  - intros name. rewrite SplitN_one by discriminate.
    repeat split. apply entry_name_default.
  - intros Hv Hne. rewrite flag_func_spec, bool_decide_eq_false_2 by done.
    by rewrite has_empty_false.
Qed.
End FlagProperties.

Section FlagExamples.
Import SkipUpdateValidationFlag Examples.
Local Existing Instance ascii_utf8.

Example Split_commas :
  strings.Split "foo,default/bar" "," = ["foo"; "default/bar"] /\
  strings.Split "a,,b" "," = ["a"; ""; "b"] /\
  strings.Split "abc" "," = ["abc"] /\
  strings.Split ",x," "," = [""; "x"; ""].
Proof. repeat split; vm_compute; reflexivity. Qed.

(** With a limit of two the entry would be divided; with the limit of
    one that the parser passes it is not. *)
Example SplitN_slash :
  strings.SplitN "default/bar" "/" 2 = ["default"; "bar"] /\
  strings.SplitN "a/b/c" "/" 2 = ["a"; "b/c"] /\
  strings.SplitN "default/bar" "/" 1 = ["default/bar"] /\
  strings.SplitN "default/bar" "/" 0 = [].
Proof. repeat split; vm_compute; reflexivity. Qed.

Example flag_func_empty_entry :
  flag_func "foo,,bar" None = (ReturnErr "name must not be empty", None) /\
  flag_func "" None = (ReturnNil, Some ∅).
Proof. split; rewrite flag_func_spec; reflexivity. Qed.

(** The value of the flag's usage text: both entries land in the
    namespace [default], the second under the name [default/bar]. *)
Lemma skip_update_validation_entries_default_witness :
  flag_func "foo,default/bar" None =
    (ReturnNil,
     Some (list_to_set
             [ {| types.Namespace := "default"; types.Name := "foo" |};
               {| types.Namespace := "default"; types.Name := "default/bar" |} ])).
Proof.
  apply (proj2 (@skip_update_validation_entries_default ascii_utf8
                  "foo,default/bar" None)).
  - discriminate.
  - repeat constructor; discriminate.
Defined.
End FlagExamples.

(** ** The swap-resize script *)

Section ResizeSwapProperties.
Context `{ResizeSwap.Machine}.
Import ResizeSwap.

Lemma requested_bytes_rounds_down (n : Z) :
  (0 <= n)%Z ->
  (requested_bytes n <= n < requested_bytes n + 1024)%Z /\
  (requested_bytes n mod 1024 = 0)%Z /\
  requested_bytes n = (n - n mod 1024)%Z.
Proof.
  intros Hn. unfold requested_bytes.
  rewrite Z.quot_div_nonneg by lia.
  pose proof (Z.div_mod n 1024 ltac:(lia)).
  pose proof (Z.mod_pos_bound n 1024 ltac:(lia)).
  repeat split; try lia.
  rewrite Z.mul_comm. apply Z.mod_mul. lia.
Qed.

Lemma vars_disk_PATH (st : St) (v dev : string) :
  vars_disk st v dev !! "PATH" = Some "/neonvm/bin".
Proof.
  unfold vars_disk, vars_start.
  rewrite lookup_insert_ne by done. apply lookup_insert_eq.
Qed.

Lemma vars_disk_swapdisk (st : St) (v dev : string) :
  vars_disk st v dev !! "swapdisk" = Some dev.
Proof. unfold vars_disk. apply lookup_insert_eq. Qed.

Ltac lookups :=
  repeat (first [rewrite lookup_insert_eq | rewrite lookup_insert_ne by done]; simpl).

(** All runs of the script with at least one argument, by what the
    programs it starts return and what the arithmetic does. *)
Lemma resize_swap_cases (new_size : string) (more : list string) (st : St) :
  resize_swap (new_size :: more) st =
    let '(s1, o1, w1) := exec blkid_L (world st) in
    let dev := strip_trailing_newlines o1 in
    let vs := vars_disk st new_size dev in
    if (s1 =? 0)%Z then
      let '(s2, o2, w2) := exec (swapoff dev) w1 in
      if bool_decide (new_size = "0") then
        (Exit 0, after st w2 vs [blkid_L; swapoff dev])
      else
        let '(r, vs') := arith_eval new_size vs in
        match r with
        | None => (ShellError, after st w2 vs' [blkid_L; swapoff dev])
        | Some n =>
            let path := default "" (vs' !! "PATH") in
            let '(s3, o3, w3) := exec (mkswap_at path dev (n ÷ 1024)) w2 in
            if (s3 =? 0)%Z then
              match vs' !! "swapdisk" with
              | None =>
                  (ShellError,
                   after st w3 vs' [blkid_L; swapoff dev; mkswap_at path dev (n ÷ 1024)])
              | Some dev' =>
                  let '(s4, o4, w4) := exec (swapon_at path dev') w3 in
                  ((if (s4 =? 0)%Z then Val tt else Exit s4),
                   after st w4 vs'
                     [blkid_L; swapoff dev; mkswap_at path dev (n ÷ 1024);
                      swapon_at path dev'])
              end
            else
              (Exit s3,
               after st w3 vs' [blkid_L; swapoff dev; mkswap_at path dev (n ÷ 1024)])
        end
    else (Exit s1, after st w1 vs [blkid_L]).
Proof.
  unfold resize_swap, positional, assign_cmdsubst, or_true, simple,
    arith_div, dollar, assign, run, errexit, sh_ret, exit, after, sh_bind,
    current_PATH, blkid_L, swapoff, mkswap_at, swapon_at, vars_disk, vars_start.
  destruct st as [w0 vs0 r0]. simpl. lookups.
  destruct (exec _ w0) as [[s1 o1] w1]. simpl.
  destruct (s1 =? 0)%Z; simpl; [| reflexivity]. lookups.
  destruct (exec _ w1) as [[s2 o2] w2]. simpl. lookups.
  case_bool_decide; simpl; [rewrite <- ?app_assoc; reflexivity |]. lookups.
  destruct (arith_eval new_size _) as [[n |] vs']; simpl;
    [| rewrite <- ?app_assoc; reflexivity].
  destruct (exec _ w2) as [[s3 o3] w3]. simpl.
  destruct (s3 =? 0)%Z; simpl; [| rewrite <- ?app_assoc; reflexivity].
  destruct (vs' !! "swapdisk") as [dev' |]; simpl;
    [| rewrite <- ?app_assoc; reflexivity].
  destruct (exec _ w3) as [[s4 o4] w4]. simpl.
  rewrite <- ?app_assoc. simpl. destruct (s4 =? 0)%Z; reflexivity.
Qed.

(** The same when [blkid] has succeeded and [swapoff] has run. *)
Lemma resize_swap_after_swapoff
    (new_size : string) (st : St) (out : string) (w1 w2 : World)
    (status2 : Z) (out2 : string) :
  let dev := strip_trailing_newlines out in
  let vs := vars_disk st new_size dev in
  exec blkid_L (world st) = (0%Z, out, w1) ->
  exec (swapoff dev) w1 = (status2, out2, w2) ->
  resize_swap [new_size] st =
    if bool_decide (new_size = "0") then
      (Exit 0, after st w2 vs [blkid_L; swapoff dev])
    else
      let '(r, vs') := arith_eval new_size vs in
      match r with
      | None => (ShellError, after st w2 vs' [blkid_L; swapoff dev])
      | Some n =>
          let path := default "" (vs' !! "PATH") in
          let '(s3, o3, w3) := exec (mkswap_at path dev (n ÷ 1024)) w2 in
          if (s3 =? 0)%Z then
            match vs' !! "swapdisk" with
            | None =>
                (ShellError,
                 after st w3 vs' [blkid_L; swapoff dev; mkswap_at path dev (n ÷ 1024)])
            | Some dev' =>
                let '(s4, o4, w4) := exec (swapon_at path dev') w3 in
                ((if (s4 =? 0)%Z then Val tt else Exit s4),
                 after st w4 vs'
                   [blkid_L; swapoff dev; mkswap_at path dev (n ÷ 1024);
                    swapon_at path dev'])
            end
          else
            (Exit s3,
             after st w3 vs' [blkid_L; swapoff dev; mkswap_at path dev (n ÷ 1024)])
      end.
Proof.
  intros dev vs Hblkid Hoff. rewrite resize_swap_cases, Hblkid.
  change (0 =? 0)%Z with true. lazy iota zeta. fold dev. by rewrite Hoff.
Qed.

End ResizeSwapProperties.

Section ResizeSwapExamples.
Import ResizeSwap Examples.
Local Existing Instance example_machine.

Example strip_newlines :
  strip_trailing_newlines ("/dev/vdb" +:+ String "010"%char "") = "/dev/vdb".
Proof. reflexivity. Qed.

Example kib_argument : pretty (5000 ÷ 1024)%Z = "4" /\ requested_bytes 5000 = 4096%Z.
Proof. split; vm_compute; reflexivity. Qed.

End ResizeSwapExamples.

(** ** Streams of pod notifications *)

Section PodStreamProperties.
Context `{PodDeps}.
Import PodWatch PodStreams.

Lemma work_items_deliver_cons (ev : Event) (rest : list Event) :
  work_items (trace (deliver (ev :: rest)))
  = (work_items (trace (handle ev)) ++ work_items (trace (deliver rest)))%list.
Proof. simpl deliver. by rewrite trace_bind, work_items_app. Qed.

Lemma removal_item_cases (q : corev1.Pod) :
  removal_item q = SubmitVMDeletion (name_of q) \/
  removal_item q = SubmitPodDeletion (name_of q).
Proof. unfold removal_item. destruct (has_key _ _); auto. Qed.

(** What a stream for one pod submits, by the state the pod is first
    seen in. *)
Lemma stream_items (p : corev1.Pod) (evs : list Event) :
  stream_of p evs -> completion_final evs ->
  (PodCompleted p = true -> work_items (trace (deliver evs)) = []) /\
  (PodCompleted p = false ->
   if existsb (fun ev => is_delete ev || is_completion ev) evs
   then exists q, name_of q = name_of p /\
                  work_items (trace (deliver evs)) = [removal_item q]
   else work_items (trace (deliver evs)) = []).
Proof.
  induction 1 as [p | p n rest Hname Hrest IH | p stale]; intros Hfinal.
  - split; intros _; reflexivity.
  - apply Forall_cons in Hfinal as [Hhead Hfinal]. specialize (IH Hfinal).
    destruct IH as [IHc IHr]. rewrite work_items_deliver_cons. simpl handle.
    split; intros Hp.
    + rewrite UpdateFunc_no_edge by (by left). rewrite IHc by auto. reflexivity.
    + cbn [existsb is_delete is_completion orb]. rewrite Hp. cbn [negb andb].
      destruct (PodCompleted n) eqn:Hn.
      * cbn [orb]. rewrite (UpdateFunc_completion _ _ Hp Hn), IHc by done.
        exists n. by split.
      * cbn [orb]. rewrite UpdateFunc_no_edge by (by right). simpl.
        specialize (IHr eq_refl).
        destruct (existsb _ rest); [| done].
        destruct IHr as (q & Hq & Hitems). exists q. split; [congruence | done].
  - rewrite work_items_deliver_cons. simpl handle. simpl deliver.
    split; intros Hp.
    + by rewrite DeleteFunc_completed.
    + cbn [existsb is_delete orb]. rewrite (DeleteFunc_running _ _ Hp).
      exists p. by split.
Qed.

(** X1.  Over the whole stream of one pod, with completion final, the
    handlers submit at most one removal item, however many updates and
    whatever deletion the stream holds. *)
Theorem pod_stream_at_most_one_removal (p : corev1.Pod) (evs : list Event) :
  stream_of p evs -> completion_final evs ->
  length (work_items (trace (deliver evs))) <= 1.
Proof.
  intros Hs Hf. destruct (stream_items p evs Hs Hf) as [Hc Hr].
  destruct (PodCompleted p) eqn:Hp.
  - rewrite Hc by done. simpl. lia.
  - specialize (Hr eq_refl). destruct (existsb _ evs).
    + destruct Hr as (q & _ & ->). simpl. lia.
    + rewrite Hr. simpl. lia.
Qed.

(** X2.  With completion final (no update takes a completed pod back to
    not completed), a pod first seen not completed gets exactly one
    removal item, keyed by its name, as soon as its stream holds a
    completing update or its deletion, and none while it holds
    neither. *)
Theorem pod_stream_removed_exactly_once (p : corev1.Pod) (evs : list Event) :
  stream_of p evs -> completion_final evs -> PodCompleted p = false ->
  (existsb (fun ev => is_delete ev || is_completion ev) evs = true ->
   work_items (trace (deliver evs)) = [SubmitVMDeletion (name_of p)] \/
   work_items (trace (deliver evs)) = [SubmitPodDeletion (name_of p)]) /\
  (existsb (fun ev => is_delete ev || is_completion ev) evs = false ->
   work_items (trace (deliver evs)) = []).
Proof.
  intros Hs Hf Hp. destruct (stream_items p evs Hs Hf) as [_ Hr].
  specialize (Hr Hp). split; intros Hex; rewrite Hex in Hr; [| done].
  destruct Hr as (q & Hq & ->). rewrite <- Hq.
  destruct (removal_item_cases q) as [-> | ->]; auto.
Qed.

(** X3.  With completion final (no update takes a completed pod back to
    not completed), a pod first seen completed gets no removal item from
    the handlers over its whole stream, not even at its deletion. *)
Theorem pod_stream_completed_never_removed (p : corev1.Pod) (evs : list Event) :
  stream_of p evs -> completion_final evs -> PodCompleted p = true ->
  work_items (trace (deliver evs)) = [].
Proof.
  intros Hs Hf Hp. by apply (stream_items p evs Hs Hf).
Qed.
End PodStreamProperties.

Section PodStreamExamples.
Import PodWatch PodStreams Examples MoreExamples.
Local Existing Instance pod_deps.

Lemma pod2_stream_ok : stream_of pod2_running pod2_stream /\ completion_final pod2_stream.
Proof.
  split.
  - repeat (apply stream_update; [reflexivity |]). apply stream_delete.
  - repeat constructor; simpl; auto.
Qed.

Lemma pod_stream_at_most_one_removal_witness :
  length (work_items (trace (deliver pod2_stream))) <= 1.
Proof.
  apply (pod_stream_at_most_one_removal pod2_running pod2_stream
           (proj1 pod2_stream_ok) (proj2 pod2_stream_ok)).
Defined.

Lemma pod_stream_removed_exactly_once_witness :
  work_items (trace (deliver pod2_stream))
    = [SubmitVMDeletion {| util.Namespace := "ns"; util.Name := "pod2" |}] \/
  work_items (trace (deliver pod2_stream))
    = [SubmitPodDeletion {| util.Namespace := "ns"; util.Name := "pod2" |}].
Proof.
  apply (proj1 (pod_stream_removed_exactly_once pod2_running pod2_stream
                  (proj1 pod2_stream_ok) (proj2 pod2_stream_ok) eq_refl)).
  reflexivity.
Defined.

Lemma pod_stream_completed_never_removed_witness :
  work_items (trace (deliver [Updated pod2_succeeded pod2_succeeded;
                              Deleted pod2_succeeded false])) = [].
Proof.
  apply (pod_stream_completed_never_removed pod2_succeeded).
  - apply stream_update; [reflexivity |]. apply stream_delete.
  - repeat constructor; simpl; auto.
  - reflexivity.
Defined.

(** Without final completion the bound fails: a pod that is seen
    completed, then running again, then completed, is removed twice. *)
Example completion_not_final_two_removals :
  length (work_items (trace (deliver [Updated pod2_running pod2_succeeded;
                                      Updated pod2_succeeded pod2_running;
                                      Updated pod2_running pod2_succeeded]))) = 2.
Proof. reflexivity. Qed.
End PodStreamExamples.

(** ** Work items of the VM handler *)

Section VMItemsProperties.
Context `{VmDeps}.
Import VMWatch VMItems.

(** The three projections of the trace of any update. *)
Lemma UpdateFunc_items (oldVM newVM : VirtualMachine) :
  let t := trace (UpdateFunc oldVM newVM) in
  match ExtractVmInfo oldVM, ExtractVmInfo newVM with
  | inl oldInfo, inl newInfo =>
      if bool_decide (PodName newVM = "") then
        disable_items t = [] /\ bounds_items t = [] /\ work_items t = []
      else
        disable_items t = disable_part oldInfo newInfo newVM /\
        bounds_items t = bounds_part oldInfo newInfo oldVM newVM /\
        work_items t = (disable_part oldInfo newInfo newVM
                        ++ bounds_part oldInfo newInfo oldVM newVM)%list
  | _, _ => disable_items t = [] /\ bounds_items t = [] /\ work_items t = []
  end.
Proof.
  simpl. destruct (ExtractVmInfo oldVM) as [oldInfo | err] eqn:Ho.
  - destruct (ExtractVmInfo newVM) as [newInfo | err] eqn:Hn.
    + case_bool_decide as Hpod.
      * unfold UpdateFunc, call_ExtractVmInfo. simpl. rewrite Ho. simpl. rewrite Hn. simpl.
        rewrite (bool_decide_eq_true_2 _ Hpod). repeat split.
      * rewrite (UpdateFunc_scheduled _ _ _ _ Ho Hn Hpod).
        unfold disable_part, bounds_part, disable_items, bounds_items, work_items.
        rewrite !List.filter_app.
        destruct (VmInfo_ScalingEnabled oldInfo && negb (VmInfo_ScalingEnabled newInfo));
          destruct (bool_decide (PodName oldVM = PodName newVM)
                    && negb (EqualScalingBounds oldInfo newInfo));
          repeat split.
    + unfold UpdateFunc, call_ExtractVmInfo. simpl. rewrite Ho. simpl. rewrite Hn.
      repeat split.
  - destruct (ExtractVmInfo newVM);
      unfold UpdateFunc, call_ExtractVmInfo; simpl; rewrite Ho; repeat split.
Qed.

(** X4.  Every work item an update submits, whatever the two VM objects
    are, is about the pod named in the new VM's status, and that name is
    not empty. *)
Theorem vm_update_items_name_new_pod (oldVM newVM : VirtualMachine) :
  Forall (fun e => item_pod e = Some (PodName newVM) /\ PodName newVM <> "")
         (work_items (trace (UpdateFunc oldVM newVM))).
Proof.
  pose proof (UpdateFunc_items oldVM newVM) as Hitems. simpl in Hitems.
  destruct (ExtractVmInfo oldVM) as [oldInfo |];
    [destruct (ExtractVmInfo newVM) as [newInfo |] |];
    try (destruct Hitems as (_ & _ & ->); constructor).
  case_bool_decide as Hpod; destruct Hitems as (_ & _ & ->); [constructor |].
  apply Forall_app. unfold disable_part, bounds_part. split.
  - destruct (_ && _); repeat constructor; done.
  - destruct (_ && _); repeat constructor; done.
Qed.

(** X5.  An update submits at most one disable-scaling item and at most
    one bounds-changed item, and nothing else; when it submits both, the
    disable-scaling item comes first. *)
Theorem vm_update_items_order (oldVM newVM : VirtualMachine) :
  let t := trace (UpdateFunc oldVM newVM) in
  work_items t = (disable_items t ++ bounds_items t)%list /\
  length (disable_items t) <= 1 /\
  length (bounds_items t) <= 1.
Proof.
  pose proof (UpdateFunc_items oldVM newVM) as Hitems. simpl in *.
  destruct (ExtractVmInfo oldVM) as [oldInfo |];
    [destruct (ExtractVmInfo newVM) as [newInfo |] |];
    try (destruct Hitems as (-> & -> & ->); simpl; repeat split; lia).
  case_bool_decide as Hpod; destruct Hitems as (-> & -> & ->);
    [simpl; repeat split; lia |].
  unfold disable_part, bounds_part.
  repeat split; repeat (destruct (_ && _); simpl); lia.
Qed.

(** X6.  With both infos extracted and the new VM scheduled, the
    disable-scaling item is submitted exactly when scaling was enabled in
    the old info and is disabled in the new one, whether or not the VM
    changed pod in the same update; otherwise none is submitted. *)
Theorem vm_update_disable_iff
    (oldVM newVM : VirtualMachine) (oldInfo newInfo : VmInfo) :
  ExtractVmInfo oldVM = inl oldInfo ->
  ExtractVmInfo newVM = inl newInfo ->
  PodName newVM <> "" ->
  let items := disable_items (trace (UpdateFunc oldVM newVM)) in
  let item := SubmitVMDisabledScaling {| util.Namespace := VmInfo_Namespace newInfo;
                                         util.Name := PodName newVM |} in
  (items = [item] \/ items = []) /\
  (items = [item] <->
   VmInfo_ScalingEnabled oldInfo = true /\ VmInfo_ScalingEnabled newInfo = false).
Proof.
  intros Ho Hn Hpod. simpl.
  pose proof (UpdateFunc_items oldVM newVM) as Hitems. simpl in Hitems.
  rewrite Ho, Hn, (bool_decide_eq_false_2 _ Hpod) in Hitems.
  destruct Hitems as (-> & _ & _). unfold disable_part.
  destruct (VmInfo_ScalingEnabled oldInfo), (VmInfo_ScalingEnabled newInfo); simpl;
    split; auto; split; try done; intros [? ?]; done.
Qed.

(** X7.  An update that delivers the same object as old and new state
    submits nothing, provided [EqualScalingBounds] holds between an info
    and itself. *)
Theorem vm_update_resync_submits_nothing (vm : VirtualMachine) :
  (forall info, ExtractVmInfo vm = inl info -> EqualScalingBounds info info = true) ->
  work_items (trace (UpdateFunc vm vm)) = [].
Proof.
  intros Hrefl.
  pose proof (UpdateFunc_items vm vm) as Hitems. simpl in Hitems.
  destruct (ExtractVmInfo vm) as [info |] eqn:Hx; [| by destruct Hitems as (_ & _ & ->)].
  case_bool_decide; destruct Hitems as (_ & _ & ->); [done |].
  unfold disable_part, bounds_part. rewrite (Hrefl info eq_refl).
  destruct (VmInfo_ScalingEnabled info); simpl;
    by rewrite andb_false_r.
Qed.
End VMItemsProperties.

Section VMItemsExamples.
Import VMWatch VMItems Examples.
Local Existing Instance vm_deps.

(** Scaling is disabled and the bounds change in one update: both items,
    disable-scaling first. *)
Example vm_update_both_items :
  work_items (trace (UpdateFunc vm1_1_4 vm1_1_8_disabled))
  = [SubmitVMDisabledScaling {| util.Namespace := "ns"; util.Name := "pod1" |};
     SubmitVMBoundsChanged
       {| info_name := "vm1"; info_namespace := "ns";
          scaling_enabled := false; bounds := (1, 8)%Z |} "pod1"].
Proof. reflexivity. Qed.

Lemma vm_update_disable_iff_witness :
  disable_items (trace (UpdateFunc vm1_1_8 vm1_moved)) = [] /\
  disable_items (trace (UpdateFunc vm1_1_8 vm1_1_8_disabled))
  = [SubmitVMDisabledScaling {| util.Namespace := "ns"; util.Name := "pod1" |}].
Proof.
  split.
  - destruct (proj1 (@vm_update_disable_iff vm_deps vm1_1_8 vm1_moved _ _
                       eq_refl eq_refl ltac:(discriminate))) as [Hd | Hd];
      [discriminate Hd | exact Hd].
  - apply (proj2 (proj2 (@vm_update_disable_iff vm_deps vm1_1_8 vm1_1_8_disabled _ _
                           eq_refl eq_refl ltac:(discriminate)))).
    split; reflexivity.
Defined.

Lemma vm_update_resync_submits_nothing_witness :
  work_items (trace (UpdateFunc vm1_1_8 vm1_1_8)) = [].
Proof.
  apply (@vm_update_resync_submits_nothing vm_deps vm1_1_8).
  intros info _. apply bool_decide_eq_true_2. reflexivity.
Defined.
End VMItemsExamples.

(** ** [strings.Split] on a one-byte separator *)

Section SplitByteProperties.
Import strings SplitSpec.

Lemma prefix_byte (c a : ascii) (s : string) :
  String.prefix (String c "") (String a s) = bool_decide (a = c).
Proof.
  simpl. destruct (ascii_dec c a) as [-> | Hne].
  - rewrite bool_decide_eq_true_2 by done. by destruct s.
  - by rewrite bool_decide_eq_false_2.
Qed.

Lemma Index_byte_nil (c : ascii) : Index "" (String c "") = (-1)%Z.
Proof. reflexivity. Qed.

Lemma Index_byte_cons (c a : ascii) (s : string) :
  Index (String a s) (String c "") =
    if bool_decide (a = c) then 0%Z
    else if (Index s (String c "") <? 0)%Z then (-1)%Z
         else (Index s (String c "") + 1)%Z.
Proof. cbn [Index]. rewrite prefix_byte. reflexivity. Qed.

Lemma Index_byte_count (c : ascii) (s : string) :
  (Index s (String c "") = (-1)%Z /\ count_byte c s = 0) \/
  ((0 <= Index s (String c ""))%Z /\ 1 <= count_byte c s).
Proof.
  induction s as [| a s IH].
  - left. by split.
  - rewrite Index_byte_cons. cbn [count_byte]. case_bool_decide.
    + right. split; lia.
    + lazy zeta. destruct IH as [[-> ->] | [Hi Hc]].
      * left. by split.
      * right. destruct (Z.ltb_spec (Index s (String c "")) 0); lia.
Qed.

(** The bytes after the first [c] hold one [c] less. *)
Lemma count_byte_after_Index (c : ascii) (s : string) :
  (0 <= Index s (String c ""))%Z ->
  count_byte c s
  = S (count_byte c (slice_from s (Index s (String c "") + len (String c "")))).
Proof.
  unfold slice_from, len. simpl String.length. change (Z.of_nat 1) with 1%Z.
  induction s as [| a s IH]; [rewrite Index_byte_nil; lia |].
  rewrite Index_byte_cons. cbn [count_byte]. case_bool_decide as Hac.
  - intros _. reflexivity.
  - lazy zeta. destruct (Z.ltb_spec (Index s (String c "")) 0) as [| Hi]; [lia |].
    intros _. rewrite IH by done. simpl plus.
    replace (Z.to_nat (Index s (String c "") + 1 + 1))
      with (S (Z.to_nat (Index s (String c "") + 1))) by lia.
    reflexivity.
Qed.

Lemma count_byte_le_length (c : ascii) (s : string) :
  count_byte c s <= String.length s.
Proof.
  induction s as [| a s IH]; simpl; [lia |]. case_bool_decide; lia.
Qed.

Lemma Count_loop_byte (c : ascii) (fuel : nat) (s : string) (n : Z) :
  String.length s < fuel ->
  Count_loop fuel s (String c "") n = (n + Z.of_nat (count_byte c s))%Z.
Proof.
  revert s n. induction fuel as [| fuel IH]; intros s n Hlen; [lia |].
  cbn [Count_loop]. lazy zeta.
  destruct (Index_byte_count c s) as [[Hi Hc] | [Hi Hc]].
  - rewrite Hi, Hc. simpl. lia.
  - destruct (Z.eqb_spec (Index s (String c "")) (-1)) as [| Hne]; [lia |].
    rewrite IH.
    + rewrite (count_byte_after_Index c s Hi). lia.
    + pose proof (slice_from_shorter s (String c "") ltac:(done) Hne). lia.
Qed.

Lemma genSplit_loop_byte `{GoUtf8} (c : ascii) (s : string) (k : nat) :
  count_byte c s <= k ->
  genSplit_loop k s (String c "") 0 = split_byte c s.
Proof.
  revert k. induction s as [| a s IH]; intros k Hk.
  - destruct k; reflexivity.
  - cbn [count_byte] in Hk. cbn [split_byte]. lazy zeta.
    pose proof (Index_byte_cons c a s) as Hidx.
    destruct (decide (a = c)) as [Hac | Hac].
    + rewrite (bool_decide_eq_true_2 _ Hac) in *.
      destruct k as [| k]; [simpl in Hk; lia |].
      cbn [genSplit_loop]. lazy zeta. rewrite Hidx. simpl.
      f_equal. apply IH. simpl in Hk. lia.
    + rewrite (bool_decide_eq_false_2 _ Hac) in *.
      simpl in Hk. specialize (IH k Hk).
      destruct (Index_byte_count c s) as [[Hi Hc] | [Hi Hc]].
      * rewrite Hi in Hidx. change (-1 <? 0)%Z with true in Hidx. lazy iota in Hidx.
        assert (Hs : genSplit_loop k s (String c "") 0 = [s]).
        { destruct k; [reflexivity |]. cbn [genSplit_loop]. lazy zeta. by rewrite Hi. }
        rewrite <- IH, Hs.
        destruct k; [reflexivity |]. cbn [genSplit_loop]. lazy zeta. by rewrite Hidx.
      * destruct (Z.ltb_spec (Index s (String c "")) 0) as [| _]; [lia |].
        destruct k as [| k]; [lia |].
        rewrite <- IH. cbn [genSplit_loop]. lazy zeta. rewrite Hidx.
        destruct (Z.ltb_spec (Index s (String c "") + 1) 0) as [| _]; [lia |].
        destruct (Z.ltb_spec (Index s (String c "")) 0) as [| _]; [lia |].
        unfold slice_to, slice_from, len. simpl String.length.
        change (Z.of_nat 1) with 1%Z.
        replace (Z.to_nat (Index s (String c "") + 1 + 0))
          with (S (Z.to_nat (Index s (String c "") + 0))) by lia.
        replace (Z.to_nat (Index s (String c "") + 1 + 1))
          with (S (Z.to_nat (Index s (String c "") + 1))) by lia.
        reflexivity.
Qed.

(** Go's [Split] on a one-byte separator computes the structural split. *)
Lemma Split_byte `{GoUtf8} (c : ascii) (s : string) :
  Split s (String c "") = split_byte c s.
Proof.
  unfold Split, genSplit, Count.
  change (-1 =? 0)%Z with false. change (-1 <? 0)%Z with true.
  change (len (String c "") =? 0)%Z with false. lazy iota.
  rewrite bool_decide_eq_false_2 by done.
  rewrite Count_loop_byte by lia.
  pose proof (count_byte_le_length c s) as Hle.
  assert (Hn : (0 + Z.of_nat (count_byte c s) + 1 >? len s + 1)%Z = false)
    by (rewrite Z.gtb_ltb; apply Z.ltb_ge; unfold len; lia).
  rewrite Hn. apply genSplit_loop_byte. lia.
Qed.

Lemma split_byte_nonempty (c : ascii) (s : string) : split_byte c s <> [].
Proof.
  destruct s as [| a s]; simpl; [done |].
  case_bool_decide; [done |]. by destruct (split_byte c s).
Qed.

Lemma join_cons (sep p : string) (rest : list string) :
  rest <> [] -> join sep (p :: rest) = p +:+ sep +:+ join sep rest.
Proof. by destruct rest. Qed.

Lemma join_head (sep : string) (a : ascii) (h : string) (t : list string) :
  join sep (String a h :: t) = String a (join sep (h :: t)).
Proof. by destruct t. Qed.

Lemma join_split_byte (c : ascii) (s : string) :
  join (String c "") (split_byte c s) = s.
Proof.
  induction s as [| a s IH]; [reflexivity |]. cbn [split_byte]. lazy zeta.
  pose proof (split_byte_nonempty c s) as Hne.
  case_bool_decide as Hac.
  - subst a. rewrite join_cons by done. by rewrite IH.
  - destruct (split_byte c s) as [| h t]; [done |].
    by rewrite join_head, IH.
Qed.

Lemma split_byte_pieces (c : ascii) (s : string) :
  Forall (fun p => count_byte c p = 0) (split_byte c s).
Proof.
  induction s as [| a s IH]; simpl.
  - by repeat constructor.
  - case_bool_decide as Hac.
    + by constructor.
    + destruct (split_byte c s) as [| h t]; simpl.
      * repeat constructor. simpl. by rewrite bool_decide_eq_false_2.
      * apply Forall_cons in IH as [Hh Ht]. constructor; [| done].
        simpl. by rewrite bool_decide_eq_false_2.
Qed.

Lemma split_byte_length (c : ascii) (s : string) :
  length (split_byte c s) = S (count_byte c s).
Proof.
  induction s as [| a s IH]; simpl; [done |].
  case_bool_decide; simpl; [by rewrite IH |].
  destruct (split_byte c s); simpl in *; lia.
Qed.

(** X8.  [strings.Split] on a one-byte separator loses nothing: joining
    the pieces with the separator gives the string back, no piece holds
    the separator, and there is one piece more than separators. *)
Theorem Split_byte_round_trip `{GoUtf8} (c : ascii) (s : string) :
  join (String c "") (Split s (String c "")) = s /\
  Forall (fun p => count_byte c p = 0) (Split s (String c "")) /\
  length (Split s (String c "")) = S (count_byte c s).
Proof.
  rewrite Split_byte.
  split; [apply join_split_byte |].
  split; [apply split_byte_pieces | apply split_byte_length].
Qed.
End SplitByteProperties.

(** ** The flag parser, by the commas of its value *)

Section FlagCommaProperties.
Context `{GoUtf8}.
Import SkipUpdateValidationFlag SplitSpec.

Lemma has_empty_cons (h : string) (t : list string) :
  has_empty (h :: t) = bool_decide (h = "") || has_empty t.
Proof. reflexivity. Qed.

Lemma split_byte_head_tail (c : ascii) (s : string) :
  exists h t,
    split_byte c s = h :: t /\
    bool_decide (h = "") = bool_decide (s = "") || starts_with c s /\
    has_empty t = ends_with c s || has_adjacent c s.
Proof.
  induction s as [| a s IH].
  - exists "", []. by repeat split.
  - destruct IH as (h & t & Hsplit & Hh & Ht). cbn [split_byte]. lazy zeta.
    rewrite Hsplit. cbn [starts_with has_adjacent].
    destruct (decide (a = c)) as [Hac | Hac].
    + rewrite !(bool_decide_eq_true_2 _ Hac). exists "", (h :: t).
      split; [done |]. split; [done |].
      rewrite has_empty_cons, Hh, Ht.
      destruct s as [| b s]; [simpl; by rewrite (bool_decide_eq_true_2 _ Hac) |].
      change (ends_with c (String a (String b s))) with (ends_with c (String b s)).
      rewrite (bool_decide_eq_false_2 (String b s = "")) by done.
      destruct (starts_with c (String b s)), (ends_with c (String b s)),
        (has_adjacent c (String b s)); reflexivity.
    + rewrite !(bool_decide_eq_false_2 _ Hac). exists (String a h), t.
      split; [done |]. split; [done |]. rewrite Ht.
      destruct s as [| b s]; [| reflexivity].
      simpl. by rewrite (bool_decide_eq_false_2 _ Hac).
Qed.

Lemma has_empty_split_byte (c : ascii) (s : string) :
  has_empty (split_byte c s)
  = bool_decide (s = "") || starts_with c s || ends_with c s || has_adjacent c s.
Proof.
  destruct (split_byte_head_tail c s) as (h & t & -> & Hh & Ht).
  rewrite has_empty_cons, Hh, Ht.
  by rewrite !orb_assoc.
Qed.

Lemma flag_func_commas
    (value : string) (skip : option (gset types.NamespacedName)) :
  flag_func value skip =
    if bool_decide (value = "") then (ReturnNil, Some ∅)
    else if starts_with comma value || ends_with comma value || has_adjacent comma value
         then (ReturnErr "name must not be empty", skip)
         else (ReturnNil, Some (list_to_set (default_name <$> split_byte comma value))).
Proof.
  rewrite flag_func_spec. case_bool_decide as Hv; [reflexivity |].
  change "," with (String comma ""). rewrite Split_byte, has_empty_split_byte.
  by rewrite (bool_decide_eq_false_2 _ Hv).
Qed.

(** X9.  What the flag function does, read off the commas of the value:
    the empty value gives the empty set; a value that starts or ends with
    a comma or holds two commas in a row is refused with the variable
    left as it was; any other value gives the set of its comma-separated
    pieces, each under the namespace [default]. *)
Theorem flag_func_by_commas
    (value : string) (skip : option (gset types.NamespacedName)) :
  flag_func value skip =
    if bool_decide (value = "") then (ReturnNil, Some ∅)
    else if starts_with comma value || ends_with comma value || has_adjacent comma value
         then (ReturnErr "name must not be empty", skip)
         else (ReturnNil, Some (list_to_set (default_name <$> split_byte comma value))).
Proof.
  rewrite flag_func_spec. case_bool_decide as Hv; [reflexivity |].
  change "," with (String comma ""). rewrite Split_byte, has_empty_split_byte.
  by rewrite (bool_decide_eq_false_2 _ Hv).
Qed.

(** X10.  A call of the flag function ends in one of two ways: it returns
    the error for an empty name and leaves the variable untouched, or it
    returns nil and the variable holds a set (never the nil map).  The
    index expressions of the unreachable branch never panic. *)
Theorem flag_func_outcomes
    (value : string) (skip : option (gset types.NamespacedName)) :
  flag_func value skip = (ReturnErr "name must not be empty", skip) \/
  exists objSet, flag_func value skip = (ReturnNil, Some objSet).
Proof.
  rewrite flag_func_spec. case_bool_decide; [eauto |].
  destruct (has_empty _); eauto.
Qed.

(** X11.  The variable is overwritten, not added to: after two calls a
    second value that parses leaves exactly what it would leave on a
    fresh variable, and a second value that is refused leaves what the
    first call left. *)
Theorem flag_func_last_value_wins
    (v1 v2 : string) (skip : option (gset types.NamespacedName)) :
  ((flag_func v2 None).1 = ReturnNil ->
   flag_func v2 (flag_func v1 skip).2 = flag_func v2 None) /\
  ((flag_func v2 None).1 = ReturnErr "name must not be empty" ->
   (flag_func v2 (flag_func v1 skip).2).2 = (flag_func v1 skip).2).
Proof.
  rewrite !(flag_func_spec v2). split.
  - case_bool_decide; [done |]. by destruct (has_empty _).
  - case_bool_decide; [done |]. by destruct (has_empty _).
Qed.

(** X12.  After a successful call the set holds exactly the names built
    from the non-empty pieces of the value; so every name in it is in
    the namespace [default], is not empty and holds no comma. *)
Theorem flag_func_names
    (value : string) (skip : option (gset types.NamespacedName))
    (objSet : gset types.NamespacedName) :
  flag_func value skip = (ReturnNil, Some objSet) ->
  (forall nn : types.NamespacedName,
      nn ∈ objSet <->
      exists e, e ∈ split_byte comma value /\ e <> "" /\ nn = default_name e) /\
  (forall nn : types.NamespacedName,
      nn ∈ objSet ->
      types.Namespace nn = "default" /\ types.Name nn <> "" /\
      count_byte comma (types.Name nn) = 0).
Proof.
  intros Hcall.
  assert (Hmem : forall nn : types.NamespacedName,
      nn ∈ objSet <->
      exists e, e ∈ split_byte comma value /\ e <> "" /\ nn = default_name e).
  { rewrite flag_func_commas in Hcall. case_bool_decide as Hv.
    - inversion Hcall; subst. intros nn. split; [set_solver |].
      intros (e & He & Hne & _). simpl in He. apply list_elem_of_singleton in He. done.
    - pose proof (has_empty_split_byte comma value) as Hempty.
      rewrite (bool_decide_eq_false_2 _ Hv) in Hempty. simpl in Hempty.
      destruct (starts_with comma value || ends_with comma value
                || has_adjacent comma value); [done |].
      inversion Hcall; subst. intros nn.
      rewrite elem_of_list_to_set, list_elem_of_fmap. split.
      + intros (e & -> & He). exists e. split; [done |]. split; [| done].
        intros ->. unfold has_empty in Hempty.
        assert (existsb (fun e => bool_decide (e = "")) (split_byte comma value) = true);
          [| congruence].
        apply existsb_exists. exists "". split; [by apply list_elem_of_In | done].
      + intros (e & He & _ & ->). by exists e. }
  split; [exact Hmem |].
  intros nn Hnn. apply Hmem in Hnn as (e & He & Hne & ->). simpl.
  repeat split; [done |].
  pose proof (split_byte_pieces comma value) as Hp.
  rewrite Forall_forall in Hp. by apply Hp.
Qed.
End FlagCommaProperties.

Section FlagCommaExamples.
Import SkipUpdateValidationFlag SplitSpec Examples.
Local Existing Instance ascii_utf8.

Example flag_func_misplaced_commas :
  flag_func ",foo" None = (ReturnErr "name must not be empty", None) /\
  flag_func "foo," None = (ReturnErr "name must not be empty", None) /\
  flag_func "foo,,bar" None = (ReturnErr "name must not be empty", None) /\
  flag_func "," None = (ReturnErr "name must not be empty", None).
Proof. repeat split; rewrite flag_func_commas; reflexivity. Qed.

Lemma flag_func_last_value_wins_witness :
  flag_func "b/c" (flag_func "a" None).2 = flag_func "b/c" None /\
  (flag_func "b,,c" (flag_func "a" None).2).2 = (flag_func "a" None).2.
Proof.
  split.
  - apply (proj1 (@flag_func_last_value_wins ascii_utf8 "a" "b/c" None)).
    rewrite flag_func_commas. reflexivity.
  - apply (proj2 (@flag_func_last_value_wins ascii_utf8 "a" "b,,c" None)).
    rewrite flag_func_commas. reflexivity.
Defined.

Lemma flag_func_names_witness :
  types.Namespace {| types.Namespace := "default"; types.Name := "ns/bar" |} = "default" /\
  types.Name {| types.Namespace := "default"; types.Name := "ns/bar" |} <> "" /\
  count_byte comma "ns/bar" = 0.
Proof.
  apply (proj2 (@flag_func_names ascii_utf8 "foo,ns/bar" None
                  (list_to_set (default_name <$> split_byte comma "foo,ns/bar"))
                  (flag_func_commas "foo,ns/bar" None))).
  apply elem_of_list_to_set, list_elem_of_fmap. exists "ns/bar".
  split; [reflexivity |]. simpl. set_solver.
Defined.
End FlagCommaExamples.

(** ** checkIfRunningInK3sCluster *)

Section K3sCheckProperties.
Import K3sCheck.

Lemma take_is_prefix (p s : string) :
  strings.take (String.length p) s = p <-> exists rest, s = p +:+ rest.
Proof.
  revert s. induction p as [| a p IH]; intros s; simpl.
  - split; [intros _; by exists s | intros _; by destruct s].
  - destruct s as [| b s]; simpl.
    + split; [done | intros [rest Hrest]; done].
    + split.
      * intros Heq. injection Heq as -> Hp. apply IH in Hp as [rest ->]. by exists rest.
      * intros [rest Heq]. injection Heq as -> ->. f_equal. apply IH. by exists rest.
Qed.

Lemma append_length (p rest : string) :
  String.length (p +:+ rest) = String.length p + String.length rest.
Proof. induction p as [| a p IH]; simpl; [done | by rewrite IH]. Qed.

(** [strings.HasPrefix] holds exactly of the strings that begin with the
    prefix. *)
Lemma HasPrefix_spec (s prefix : string) :
  HasPrefix s prefix = true <-> exists rest, s = prefix +:+ rest.
Proof.
  unfold HasPrefix, strings.slice_to, strings.len. rewrite Nat2Z.id.
  rewrite andb_true_iff, bool_decide_eq_true, take_is_prefix. split.
  - by intros [_ Hp].
  - intros [rest ->]. split; [| by exists rest].
    rewrite append_length. apply Z.geb_le. lia.
Qed.

Context `{Client}.

Lemma range_nodes_spec (items : list Node) :
  range_nodes items = true <->
  exists node, node ∈ items /\
               exists rest, OSImage (NodeInfo (Status node)) = "K3s" +:+ rest.
Proof.
  induction items as [| node items IH]; simpl.
  - split; [done | intros (node & Hin & _); by apply elem_of_nil in Hin].
  - destruct (HasPrefix _ "K3s") eqn:Hp.
    + split; [intros _ | done]. exists node. split; [left |]. by apply HasPrefix_spec.
    + rewrite IH. split.
      * intros (n & Hin & Hn). exists n. split; [by right | done].
      * intros (n & Hin & Hn). apply elem_of_cons in Hin as [-> | Hin].
        -- apply HasPrefix_spec in Hn. congruence.
        -- by exists n.
Qed.

(** X13.  When the client is built and the nodes are listed, the check
    returns no error, and it answers true exactly when the OS image of
    some node begins with [K3s]. *)
Theorem k3s_check_answer (cfg : Config) (client : Clientset) (items : list Node) :
  NewForConfig cfg = inl client ->
  NodesList client = inl items ->
  exists answer,
    (checkIfRunningInK3sCluster cfg).1 = (answer, None) /\
    (answer = true <->
     exists node, node ∈ items /\
                  exists rest, OSImage (NodeInfo (Status node)) = "K3s" +:+ rest).
Proof.
  intros Hc Hl. exists (range_nodes items). split; [| apply range_nodes_spec].
  unfold checkIfRunningInK3sCluster. simpl. rewrite Hc. simpl. by rewrite Hl.
Qed.

(** X14.  Errors of the check.  When the client cannot be built the
    answer is false with an error that wraps the cause under the message
    prefix, and the nodes are never listed; when listing fails the
    answer is false with the listing error itself. *)
Theorem k3s_check_errors (cfg : Config) :
  (forall err, NewForConfig cfg = inr err ->
     exists e,
       checkIfRunningInK3sCluster cfg = ((false, Some e), [CallNewForConfig cfg]) /\
       Unwrap e = Some err /\
       Error_ e = "failed to create new k8s client: " +:+ Error_ err) /\
  (forall client err, NewForConfig cfg = inl client -> NodesList client = inr err ->
     (checkIfRunningInK3sCluster cfg).1 = (false, Some err)).
Proof.
  split.
  - intros err Hc. exists (Errorf_w "failed to create new k8s client" err).
    unfold checkIfRunningInK3sCluster. simpl. rewrite Hc. by repeat split.
  - intros client err Hc Hl.
    unfold checkIfRunningInK3sCluster. simpl. rewrite Hc. simpl. by rewrite Hl.
Qed.

(** X15.  On every path the check asks for the client once; when it gets
    one it opens one context with a timeout of ten seconds, lists the
    nodes once with that client and cancels the context last. *)
Theorem k3s_check_calls (cfg : Config) :
  match NewForConfig cfg with
  | inr _ => trace (checkIfRunningInK3sCluster cfg) = [CallNewForConfig cfg]
  | inl client =>
      trace (checkIfRunningInK3sCluster cfg)
      = [CallNewForConfig cfg; WithTimeout 10; CallNodesList client; Cancel]
  end.
Proof.
  unfold checkIfRunningInK3sCluster. simpl.
  destruct (NewForConfig cfg) as [client | err]; simpl; [| done].
  by destruct (NodesList client).
Qed.
End K3sCheckProperties.

Section K3sCheckExamples.
Import K3sCheck Examples MoreExamples.
Local Existing Instance example_client.

Example HasPrefix_cases :
  HasPrefix "K3s v1.27.3+k3s1" "K3s" = true /\
  HasPrefix "k3s v1.27.3" "K3s" = false /\
  HasPrefix "K3" "K3s" = false /\
  HasPrefix "" "K3s" = false /\
  HasPrefix "K3s" "" = true.
Proof. repeat split. Qed.

Lemma k3s_check_answer_witness :
  (checkIfRunningInK3sCluster true).1 = (true, None).
Proof.
  destruct (@k3s_check_answer example_client true 1 _ eq_refl eq_refl)
    as (answer & Hres & Hiff).
  rewrite Hres. f_equal. apply Hiff.
  exists (mk_node "K3s v1.27.3+k3s1"). split.
  - apply elem_of_cons. right. apply elem_of_cons. by left.
  - exists " v1.27.3+k3s1". reflexivity.
Defined.

Lemma k3s_check_errors_witness :
  (checkIfRunningInK3sCluster false).1
  = (false, Some (wrapError "failed to create new k8s client: no kubeconfig"
                            (leafError "no kubeconfig"))).
Proof.
  destruct (proj1 (@k3s_check_errors example_client false) _ eq_refl)
    as (e & Hres & Hun & Hmsg).
  rewrite Hres. destruct e as [m | m inner]; [discriminate Hun |].
  injection Hun as ->. simpl in Hmsg. rewrite Hmsg. reflexivity.
Defined.
End K3sCheckExamples.

(** ** The handler of the debug server *)

Section DebugServerProperties.
Context `{DebugServer.Deps}.
Import DebugServer.

Lemma range_reconcilers_spec (rs : list Reconciler) (response : list ReconcileSnapshot) :
  range_reconcilers rs response
  = ((response ++ (Snapshot <$> rs))%list, CallSnapshot <$> rs).
Proof.
  revert response. induction rs as [| r rs IH]; intros response; simpl.
  - by rewrite (right_id_L [] (++)).
  - rewrite IH. unfold bind, emit. simpl. by rewrite <- (assoc_L (++)).
Qed.

Lemma filter_response_snapshots (rs : list Reconciler) :
  List.filter is_response (CallSnapshot <$> rs) = [].
Proof. induction rs as [| r rs IH]; simpl; done. Qed.

Lemma snapshot_calls_snapshots (rs : list Reconciler) :
  snapshot_calls (CallSnapshot <$> rs) = rs.
Proof.
  unfold snapshot_calls. induction rs as [| r rs IH]; [done |].
  cbn. f_equal. exact IH.
Qed.

(** The trace of the handler in its three cases. *)
Lemma handler_trace (rs : list Reconciler) (method : string) :
  trace (handler rs method) =
    if bool_decide (method = MethodGet) then
      ((CallSnapshot <$> rs)
       ++ match json_Marshal (Snapshot <$> rs) with
          | inl responseBody => [WriteHeader StatusOK; Write responseBody]
          | inr err => [WriteHeader StatusInternalServerError;
                        Write ("failed to marshal JSON response: " +:+ err)]
          end
       ++ [BodyClose])%list
    else [WriteHeader StatusMethodNotAllowed;
          Write "request method must be GET"; BodyClose].
Proof.
  unfold handler. destruct (decide (method = MethodGet)) as [Hm | Hm].
  - rewrite (bool_decide_eq_true_2 _ Hm), bool_decide_eq_false_2 by tauto.
    rewrite !trace_bind, range_reconcilers_spec. simpl.
    rewrite <- (assoc_L (++)). f_equal. f_equal.
    destruct (json_Marshal _); reflexivity.
  - rewrite (bool_decide_eq_false_2 _ Hm), (bool_decide_eq_true_2 _ Hm). reflexivity.
Qed.

(** X16.  Whatever the request, the handler writes one status line
    followed by one body, with status 200, 405 or 500, and closes the
    request body once, as its last step. *)
Theorem debug_handler_response_shape (rs : list Reconciler) (method : string) :
  exists code body t,
    List.filter is_response (trace (handler rs method)) = [WriteHeader code; Write body] /\
    (code = StatusOK \/ code = StatusMethodNotAllowed \/ code = StatusInternalServerError) /\
    trace (handler rs method) = (t ++ [BodyClose])%list /\
    BodyClose ∉ t.
Proof.
  rewrite handler_trace. case_bool_decide.
  - destruct (json_Marshal (Snapshot <$> rs)) as [body | err].
    + exists StatusOK, body, ((CallSnapshot <$> rs) ++ [WriteHeader StatusOK; Write body])%list.
      rewrite !List.filter_app, filter_response_snapshots.
      repeat split; auto; [by rewrite <- (assoc_L (++)) |].
      rewrite elem_of_app, list_elem_of_fmap. intros [(r & Hr & _) | Hin]; [done |].
      repeat (apply elem_of_cons in Hin as [Hin | Hin]; [done |]).
      by apply elem_of_nil in Hin.
    + exists StatusInternalServerError, ("failed to marshal JSON response: " +:+ err),
        ((CallSnapshot <$> rs)
         ++ [WriteHeader StatusInternalServerError;
             Write ("failed to marshal JSON response: " +:+ err)])%list.
      rewrite !List.filter_app, filter_response_snapshots.
      repeat split; auto; [by rewrite <- (assoc_L (++)) |].
      rewrite elem_of_app, list_elem_of_fmap. intros [(r & Hr & _) | Hin]; [done |].
      repeat (apply elem_of_cons in Hin as [Hin | Hin]; [done |]).
      by apply elem_of_nil in Hin.
  - exists StatusMethodNotAllowed, "request method must be GET",
      [WriteHeader StatusMethodNotAllowed; Write "request method must be GET"].
    repeat split; auto.
    intros Hin. repeat (apply elem_of_cons in Hin as [Hin | Hin]; [done |]).
    by apply elem_of_nil in Hin.
Qed.

(** X17.  A request whose method is not [GET] is answered with status
    405 and the fixed message, and no reconciler is asked for a
    snapshot. *)
Theorem debug_handler_rejects_other_methods (rs : list Reconciler) (method : string) :
  method <> "GET" ->
  trace (handler rs method)
  = [WriteHeader 405; Write "request method must be GET"; BodyClose] /\
  snapshot_calls (trace (handler rs method)) = [].
Proof.
  intros Hm. rewrite handler_trace, (bool_decide_eq_false_2 _ Hm). by split.
Qed.

(** X18.  A [GET] request asks every reconciler for its snapshot once,
    in the order the reconcilers were given, and marshals the snapshots
    in that order: the answer is status 200 with the marshalled bytes, or
    status 500 with the marshalling error after the fixed prefix. *)
Theorem debug_handler_get (rs : list Reconciler) :
  snapshot_calls (trace (handler rs "GET")) = rs /\
  List.filter is_response (trace (handler rs "GET")) =
    match json_Marshal (Snapshot <$> rs) with
    | inl responseBody => [WriteHeader 200; Write responseBody]
    | inr err => [WriteHeader 500; Write ("failed to marshal JSON response: " +:+ err)]
    end.
Proof.
  rewrite handler_trace. simpl. split.
  - unfold snapshot_calls. rewrite !omap_app.
    fold (snapshot_calls (CallSnapshot <$> rs)). rewrite snapshot_calls_snapshots.
    destruct (json_Marshal _); simpl; by rewrite (right_id_L [] (++)).
  - rewrite !List.filter_app, filter_response_snapshots.
    destruct (json_Marshal _); reflexivity.
Qed.
End DebugServerProperties.

Section DebugServerExamples.
Import DebugServer Examples MoreExamples.
Local Existing Instance example_debug_deps.

Example debug_handler_runs :
  trace (handler [3; 5]%Z "GET")
  = [CallSnapshot 3%Z; CallSnapshot 5%Z; WriteHeader 200; Write "[3,5]"; BodyClose] /\
  trace (handler [3; -5]%Z "GET")
  = [CallSnapshot 3%Z; CallSnapshot (-5)%Z; WriteHeader 500;
     Write "failed to marshal JSON response: json: unsupported value"; BodyClose] /\
  trace (handler [3; 5]%Z "get")
  = [WriteHeader 405; Write "request method must be GET"; BodyClose].
Proof. repeat split; vm_compute; reflexivity. Qed.

Lemma debug_handler_rejects_other_methods_witness :
  trace (handler [3; 5]%Z "POST")
  = [WriteHeader 405; Write "request method must be GET"; BodyClose].
Proof.
  apply (@debug_handler_rejects_other_methods example_debug_deps [3; 5]%Z "POST").
  discriminate.
Defined.
End DebugServerExamples.

(** ** The swap-resize script: every run *)

Section ResizeSwapRuns.
Context `{ResizeSwap.Machine}.
Import ResizeSwap.

(** Called without an argument the script stops at once with a shell
    error ([set -u]): no program is started and nothing changes. *)
Lemma resize_swap_no_argument (st : St) :
  resize_swap [] st = (ShellError, st).
Proof. reflexivity. Qed.

(** What evaluating the size leaves in [PATH] and [swapdisk] when it
    assigns nothing. *)
Lemma nothing_assigned_after_disk (c : string) (st : St) (v dev : string) :
  assigns_nothing c ->
  (arith_eval c (vars_disk st v dev)).2 !! "PATH" = Some "/neonvm/bin" /\
  (arith_eval c (vars_disk st v dev)).2 !! "swapdisk" = Some dev.
Proof.
  intros Hk. rewrite (Hk (vars_disk st v dev)).
  split; [apply vars_disk_PATH | apply vars_disk_swapdisk].
Qed.




End ResizeSwapRuns.

Section ResizeSwapRunsExamples.
Import ResizeSwap Examples MoreExamples.

(** A size that assigns a variable of the shell: the contents
    [swapdisk=7] have the value 7, so [mkswap] is asked for 0 KiB on the
    device [blkid] printed and [swapon] is run on [7]; the contents
    [PATH=1] make [mkswap] and [swapon] start with [PATH] set to [1]. *)
Example resize_swap_assigning_sizes :
  ran (@resize_swap example_machine ["swapdisk=7"] (swap_start true 8)).2
  = [blkid_L; swapoff "/dev/vdb"; mkswap "/dev/vdb" 0; swapon_d "7"] /\
  ran (@resize_swap example_machine ["PATH=1"] (swap_start true 8)).2
  = [blkid_L; swapoff "/dev/vdb"; mkswap_at "1" "/dev/vdb" 0; swapon_at "1" "/dev/vdb"].
Proof. split; vm_compute; reflexivity. Qed.

Lemma numeral_assigns_nothing :
  forall a, ["5000"] !! 0%nat = Some a -> @assigns_nothing example_machine a.
Proof. intros a Ha. injection Ha as <-. intros vs. reflexivity. Qed.




End ResizeSwapRunsExamples.
